(** * Figma screens extractor: a shallow embedding of [index.js]

    The script walks the document tree of a Figma file, keeps the FRAME
    nodes (optionally only those of an exact size), and downloads one
    rendered image per kept node under a sanitized, collision-free file
    name.  This development embeds the functions of [index.js] and
    proves the properties its specification states about them.

    Conventions of the embedding:
    - a JavaScript string is the list of its UTF-16 code units;
    - a JavaScript number read from the document is an IEEE 754 double
      (Rocq's primitive [float]), and [===] on numbers is [PrimFloat.eqb];
    - a value that may be [null] or [undefined] is an [option];
    - the array [screenNodes] that [traverse] pushes to is threaded
      through the traversal as explicit state. *)

From Stdlib Require Import List Bool Arith NArith ZArith Lia.
From Stdlib.Lists Require Import Finite.
From Stdlib Require Import Ascii String Floats.
From Stdlib.Strings Require Import Byte.
From Stdlib Require Import DecimalString DecimalN.
Import ListNotations.

Set Implicit Arguments.

(** ** JavaScript strings *)

Definition JsString : Type := list N.

(** An ASCII literal of the source, as code units. *)
Definition lit (s : string) : JsString :=
  map N_of_ascii (list_ascii_of_string s).

Fixpoint JsString_eqb (a b : JsString) : bool :=
  match a, b with
  | [], [] => true
  | c :: a', d :: b' => N.eqb c d && JsString_eqb a' b'
  | _, _ => false
  end.

(** The strict equality operator [===], at the two types the script
    compares: strings (code unit by code unit) and numbers (IEEE 754
    equality: [NaN] differs from itself, the two zeros are equal). *)
Class StrictEquals (A : Type) : Type := strict_equals : A -> A -> bool.

#[global] Instance StrictEquals_string : StrictEquals JsString := JsString_eqb.
#[global] Instance StrictEquals_number : StrictEquals float := PrimFloat.eqb.

Declare Scope js_scope.
Delimit Scope js_scope with js.
Notation "a === b" := (strict_equals a b) (at level 70, no associativity) : js_scope.
Local Open Scope js_scope.

(** ** Data model *)

(** [{ width, height }]: the shape of [CONFIG.targetDimensions] and the
    part of [absoluteBoundingBox] that the script reads. *)
Record Dimensions : Type := mkDimensions {
  width : float;
  height : float
}.

(** Styling metadata is copied and never inspected. *)
Definition Opaque : Type := option JsString.

(** A node of the document tree, with the properties [index.js] reads.
    [children] is [None] for a node without that property.  The
    induction principle that follows the nesting is [Node_forest_ind]
    below. *)
#[warnings="-register-all"]
Inductive Node : Type := mkNode {
  id : JsString;
  name : JsString;
  type : JsString;
  absoluteBoundingBox : option Dimensions;
  backgroundColor : Opaque;
  effects : Opaque;
  constraints : Opaque;
  children : option (list Node)
}.

(** The object literal [screenData] built for a kept node. *)
Module Screen.
Record t : Type := mk {
  id : JsString;
  name : JsString;
  type : JsString;
  absoluteBoundingBox : option Dimensions;
  backgroundColor : Opaque;
  effects : Opaque;
  constraints : Opaque
}.
End Screen.

Record Config : Type := mkConfig {
  outputDir : JsString;
  imageFormats : list JsString;
  includeDimensions : bool;
  apiDelay : N;
  targetDimensions : option Dimensions
}.

Definition OUTPUT_DIR_NAME : JsString := lit "planteria".
Definition SCREEN_WIDTH : float := 375%float.
Definition SCREEN_HEIGHT : float := 812%float.

(** The [CONFIG] object as the repository ships it. *)
Definition SHIPPED_CONFIG : Config := {|
  outputDir := lit "./exported-projects/" ++ OUTPUT_DIR_NAME;
  imageFormats := [lit "png"];
  includeDimensions := false;
  apiDelay := 200;
  targetDimensions := Some {| width := SCREEN_WIDTH; height := SCREEN_HEIGHT |}
|}.

(** ** Tree Filter: [extractScreenNodes] *)

Section TreeFilter.

Variable CONFIG : Config.

Definition screenData (node : Node) : Screen.t := {|
  Screen.id := node.(id);
  Screen.name := node.(name);
  Screen.type := node.(type);
  Screen.absoluteBoundingBox := node.(absoluteBoundingBox);
  Screen.backgroundColor := node.(backgroundColor);
  Screen.effects := node.(effects);
  Screen.constraints := node.(constraints)
|}.

(** The body of [traverse] before it descends: what one visit does to
    [screenNodes]. *)
Definition visit (node : Node) (screenNodes : list Screen.t) : list Screen.t :=
  if node.(type) === lit "FRAME" then
    match CONFIG.(targetDimensions), node.(absoluteBoundingBox) with
    | Some target, Some box =>
        if (box.(width) === target.(width)) && (box.(height) === target.(height))
        then screenNodes ++ [screenData node]
        else screenNodes
    | Some _, None => screenNodes
    | None, _ => screenNodes ++ [screenData node]
    end
  else screenNodes.

(** [traverse], with [Array.prototype.forEach] as a left fold over the
    children in order. *)
Fixpoint traverse (node : Node) (screenNodes : list Screen.t) {struct node}
  : list Screen.t :=
  let screenNodes := visit node screenNodes in
  match node.(children) with
  | Some kids => fold_left (fun acc kid => traverse kid acc) kids screenNodes
  | None => screenNodes
  end.

Definition extractScreenNodes (nodes : list Node) : list Screen.t :=
  fold_left (fun acc node => traverse node acc) nodes [].

End TreeFilter.

(** ** Sanitizer: [sanitizeFileName] *)

(** The code units of the character class of the regular expression in
    [sanitizeFileName], in the order the class lists them:
    slash, backslash, question mark, percent, asterisk, colon, vertical
    bar, double quote, less-than, greater-than. *)
Definition invalid_characters : list N :=
  [47; 92; 63; 37; 42; 58; 124; 34; 60; 62]%N.

Definition in_class (class : list N) (c : N) : bool :=
  existsb (N.eqb c) class.

(** [s.replace(/[class]/g, replacement)] for a replacement without
    [$] patterns: the regular expression has no [u] flag, so it matches
    one code unit at a time, and every match is replaced. *)
Definition replace_class_g (class : list N) (replacement : JsString)
    (s : JsString) : JsString :=
  flat_map (fun c => if in_class class c then replacement else [c]) s.

Definition sanitizeFileName (name : JsString) : JsString :=
  replace_class_g invalid_characters (lit "-") name.

(** ** Namer: [getUniqueFilePath] *)

(** A template literal prints [counter], a whole number, in decimal. *)
Definition decimal (n : N) : JsString :=
  lit (NilEmpty.string_of_uint (N.to_uint n)).

Section UniquePath.

(** [fs.existsSync], as the set of occupied paths it answers for. *)
Variable existsSync : JsString -> bool.

(** The [while] loop.  [fuel] bounds the number of times the loop
    condition is evaluated; [None] means the bound was reached.
    [counter] holds whole numbers only and is kept exact (doubles are
    exact up to 2^53, far beyond the number of files of any
    directory). *)
Fixpoint getUniqueFilePath_loop (fuel : nat) (basePath extension : JsString)
    (filePath : JsString) (counter : N) {struct fuel} : option JsString :=
  match fuel with
  | O => None
  | S fuel =>
      if existsSync filePath then
        let filePath := basePath ++ lit "-" ++ decimal counter ++ lit "." ++ extension in
        let counter := (counter + 1)%N in
        getUniqueFilePath_loop fuel basePath extension filePath counter
      else Some filePath
  end.

Definition getUniqueFilePath (fuel : nat) (basePath extension : JsString)
  : option JsString :=
  let filePath := basePath ++ lit "." ++ extension in
  let counter := 1%N in
  getUniqueFilePath_loop fuel basePath extension filePath counter.

End UniquePath.

(** ** Effects: the runtime the script runs on *)

(** A caught exception; the script only reads its [message]. *)
Record Error : Type := mkError { message : JsString }.

Definition ArrayBuffer : Type := list Byte.byte.

(** The external collaborators, as an interface: the remote API seen
    through [axios], the file system seen through [fs], and the two
    library conversions whose results end up in file names.  [Net] and
    [FS] are the states of the remote side and of the disk; a request
    may answer differently each time, so it returns the next [Net]. *)
Class Runtime : Type := {
  Net : Type;
  FS : Type;
  (** [fs.existsSync(path)] *)
  fs_existsSync : FS -> JsString -> bool;
  (** [fs.writeFileSync(path, data)]: whether it throws, and the disk it
      leaves.  The file is opened (created or truncated) before it is
      written, so a write that throws may leave the disk changed. *)
  fs_writeFileSync : FS -> JsString -> ArrayBuffer -> option Error * FS;
  (** [axios.get(.../files/FILE_ID)] then [response.data.document] *)
  get_file : Net -> (Error + Node) * Net;
  (** [axios.get(.../images/FILE_ID?ids=..&format=..)] then
      [response.data.images[nodeId]] *)
  get_images : Net -> JsString -> JsString -> (Error + option JsString) * Net;
  (** [axios.get(url, { responseType: 'arraybuffer' })] then [response.data] *)
  get_arraybuffer : Net -> JsString -> (Error + ArrayBuffer) * Net;
  (** [path.join(dir, file)] *)
  path_join : JsString -> JsString -> JsString;
  (** a number inside a template literal *)
  Number_toString : float -> JsString
}.

(** The lines the script prints, by the template that produces them. *)
Inductive Line : Type :=
| ErrorFetchingFigmaFile (error : Error)
| SkippingInvalidUrl (filePath : JsString)
| Downloaded (filePath : JsString)
| ErrorDownloading (filePath : JsString) (message : JsString)
| ErrorGettingImageUrl (message : JsString)
| FoundScreens (count : nat) (target : option Dimensions)
| NoScreensFound (target : option Dimensions)
| CheckTargetDimensions
| ExportingScreen (name : JsString)
| DimensionsOf (box : Dimensions)
| DownloadedAs (format : JsString) (filePath : JsString)
| FailedToDownloadScreen (name : JsString)
| ExportCompleted (outputDir : JsString).

(** What a run does to the outside, in order. *)
Inductive Event : Type :=
| ConsoleLog (line : Line)
| ConsoleError (line : Line)
| RequestFile
| RequestImages (nodeId format : JsString)
| RequestArrayBuffer (url : JsString)
| WriteFileSync (filePath : JsString) (data : ArrayBuffer)
| SetTimeout (ms : N).

(** How a piece of the script ends: with a value, with an exception in
    flight, by [process.exit], or not within the loop bound given to
    [getUniqueFilePath]. *)
Inductive Completion (A : Type) : Type :=
| Normal (a : A)
| Throw (error : Error)
| Exit (code : N)
| OutOfFuel.

Arguments Normal {A} a.
Arguments Throw {A} error.
Arguments Exit {A} code.
Arguments OutOfFuel {A}.

Section Program.

Context {RT : Runtime}.

Record World : Type := mkWorld { net : Net; fs : FS }.

Record Outcome (A : Type) : Type := mkOutcome {
  completion : Completion A;
  world : World;
  events : list Event
}.

(** An [async] function or a statement: from the world it starts in
    to how it ends, the world it leaves, and the events it caused. *)
Definition Prog (A : Type) : Type := World -> Outcome A.

Definition after {A : Type} (earlier : list Event) (o : Outcome A) : Outcome A :=
  mkOutcome o.(completion) o.(world) (earlier ++ o.(events)).

Definition ret {A : Type} (a : A) : Prog A :=
  fun w => mkOutcome (Normal a) w [].

Definition bind {A B : Type} (m : Prog A) (k : A -> Prog B) : Prog B :=
  fun w =>
    let o := m w in
    match o.(completion) with
    | Normal a => after o.(events) (k a o.(world))
    | Throw error => mkOutcome (Throw error) o.(world) o.(events)
    | Exit code => mkOutcome (Exit code) o.(world) o.(events)
    | OutOfFuel => mkOutcome OutOfFuel o.(world) o.(events)
    end.

(** [try { body } catch (error) { handler }] *)
Definition try_catch {A : Type} (body : Prog A) (handler : Error -> Prog A) : Prog A :=
  fun w =>
    let o := body w in
    match o.(completion) with
    | Throw error => after o.(events) (handler error o.(world))
    | _ => o
    end.

Definition throw {A : Type} (error : Error) : Prog A :=
  fun w => mkOutcome (Throw error) w [].

Definition process_exit {A : Type} (code : N) : Prog A :=
  fun w => mkOutcome (Exit code) w [].

Definition emit (e : Event) : Prog unit :=
  fun w => mkOutcome (Normal tt) w [e].

Definition console_log (line : Line) : Prog unit := emit (ConsoleLog line).
Definition console_error (line : Line) : Prog unit := emit (ConsoleError line).

(** [await delay(ms)] *)
Definition delay (ms : N) : Prog unit := emit (SetTimeout ms).

Definition settle {A : Type} (r : Error + A) : Completion A :=
  match r with
  | inl error => Throw error
  | inr a => Normal a
  end.

Definition axios_get_file : Prog Node :=
  fun w =>
    let (r, n) := get_file w.(net) in
    mkOutcome (settle r) (mkWorld n w.(fs)) [RequestFile].

Definition axios_get_images (nodeId format : JsString) : Prog (option JsString) :=
  fun w =>
    let (r, n) := get_images w.(net) nodeId format in
    mkOutcome (settle r) (mkWorld n w.(fs)) [RequestImages nodeId format].

Definition axios_get_arraybuffer (url : JsString) : Prog ArrayBuffer :=
  fun w =>
    let (r, n) := get_arraybuffer w.(net) url in
    mkOutcome (settle r) (mkWorld n w.(fs)) [RequestArrayBuffer url].

Definition writeFileSync (filePath : JsString) (data : ArrayBuffer) : Prog unit :=
  fun w =>
    let (thrown, disk) := fs_writeFileSync w.(fs) filePath data in
    mkOutcome (match thrown with
               | Some error => Throw error
               | None => Normal tt
               end)
              (mkWorld w.(net) disk) [WriteFileSync filePath data].

(** [getUniqueFilePath] against the disk of the current world. *)
Definition uniqueFilePath (fuel : nat) (basePath extension : JsString) : Prog JsString :=
  fun w =>
    match getUniqueFilePath (fs_existsSync w.(fs)) fuel basePath extension with
    | Some filePath => mkOutcome (Normal filePath) w []
    | None => mkOutcome OutOfFuel w []
    end.

End Program.

Declare Scope prog_scope.
Delimit Scope prog_scope with prog.
Notation "x <- m ;; k" := (bind m (fun x => k))
  (at level 61, m at next level, right associativity) : prog_scope.
Notation "m ;; k" := (bind m (fun _ => k))
  (at level 61, right associativity) : prog_scope.

(** ** Fetcher, Render Resolver and Export Orchestrator *)

(** JavaScript truthiness of a value that is a string, [null] or
    [undefined]: only a non-empty string is truthy. *)
Definition truthy (v : option JsString) : bool :=
  match v with
  | Some (_ :: _) => true
  | _ => false
  end.

(** The string a value is once it is known to be truthy. *)
Definition text (v : option JsString) : JsString :=
  match v with
  | Some s => s
  | None => []
  end.

Section Orchestrator.

Context {RT : Runtime}.
Variable CONFIG : Config.

Local Open Scope prog_scope.

Definition fetchFigmaFile : Prog Node :=
  try_catch axios_get_file
    (fun error => console_error (ErrorFetchingFigmaFile error) ;; process_exit 1).

Definition downloadImage (url : option JsString) (filePath : JsString) : Prog bool :=
  if negb (truthy url) then
    console_error (SkippingInvalidUrl filePath) ;;
    ret false
  else
    try_catch
      (response_data <- axios_get_arraybuffer (text url) ;;
       writeFileSync filePath response_data ;;
       console_log (Downloaded filePath) ;;
       ret true)
      (fun error =>
         console_error (ErrorDownloading filePath error.(message)) ;;
         ret false).

Definition getImageUrl (nodeId format : JsString) : Prog (option JsString) :=
  try_catch (axios_get_images nodeId format)
    (fun error =>
       console_error (ErrorGettingImageUrl error.(message)) ;;
       ret None).

(** [fileName] as [main] builds it inside the format loop. *)
Definition fileNameOf (node : Screen.t) (baseFileName : JsString) : JsString :=
  let fileName := lit "screen-" ++ baseFileName in
  match CONFIG.(includeDimensions), node.(Screen.absoluteBoundingBox) with
  | true, Some box =>
      fileName ++ lit "-" ++ Number_toString box.(width)
               ++ lit "x" ++ Number_toString box.(height)
  | _, _ => fileName
  end.

(** The loop [for (const format of CONFIG.imageFormats)] of [main];
    its value is [downloadedSuccessfully].  The first success leaves
    the loop by [break]; every other turn ends with [delay(100)]. *)
Fixpoint tryFormats (fuel : nat) (node : Screen.t) (baseFileName : JsString)
    (formats : list JsString) {struct formats} : Prog bool :=
  match formats with
  | [] => ret false
  | format :: formats =>
      url <- getImageUrl node.(Screen.id) format ;;
      success <-
        (if truthy url then
           filePath <- uniqueFilePath fuel
                         (path_join CONFIG.(outputDir) (fileNameOf node baseFileName))
                         format ;;
           success <- downloadImage url filePath ;;
           (if success then console_log (DownloadedAs format filePath) else ret tt) ;;
           ret success
         else ret false) ;;
      if success then ret true
      else delay 100 ;; tryFormats fuel node baseFileName formats
  end.

(** One turn of the loop [for (const node of screenNodes)]. *)
Definition exportScreen (fuel : nat) (node : Screen.t) : Prog unit :=
  let baseFileName := sanitizeFileName node.(Screen.name) in
  console_log (ExportingScreen node.(Screen.name)) ;;
  match node.(Screen.absoluteBoundingBox) with
  | Some box => console_log (DimensionsOf box)
  | None => ret tt
  end ;;
  downloadedSuccessfully <- tryFormats fuel node baseFileName CONFIG.(imageFormats) ;;
  (if negb downloadedSuccessfully
   then console_log (FailedToDownloadScreen node.(Screen.name))
   else ret tt) ;;
  delay CONFIG.(apiDelay).

Fixpoint exportScreens (fuel : nat) (screenNodes : list Screen.t) : Prog unit :=
  match screenNodes with
  | [] => ret tt
  | node :: screenNodes => exportScreen fuel node ;; exportScreens fuel screenNodes
  end.

(** [main].  [fuel] is the loop bound handed to every
    [getUniqueFilePath].  A document without [children] makes
    [nodes.forEach] throw. *)
Definition main (fuel : nat) : Prog unit :=
  document <- fetchFigmaFile ;;
  nodes <- match document.(children) with
           | Some nodes => ret nodes
           | None => throw (mkError (lit "Cannot read properties of undefined (reading 'forEach')"))
           end ;;
  let screenNodes := extractScreenNodes CONFIG nodes in
  console_log (FoundScreens (List.length screenNodes) CONFIG.(targetDimensions)) ;;
  if Nat.eqb (List.length screenNodes) 0 then
    console_log (NoScreensFound CONFIG.(targetDimensions)) ;;
    match CONFIG.(targetDimensions) with
    | Some _ => console_log CheckTargetDimensions
    | None => ret tt
    end
  else
    exportScreens fuel screenNodes ;;
    console_log (ExportCompleted CONFIG.(outputDir)).

(** The events only [downloadImage] causes: its request, its write and
    its three console lines. *)
Definition of_downloadImage (e : Event) : bool :=
  match e with
  | RequestArrayBuffer _ => true
  | WriteFileSync _ _ => true
  | ConsoleError (SkippingInvalidUrl _) => true
  | ConsoleError (ErrorDownloading _ _) => true
  | ConsoleLog (Downloaded _) => true
  | _ => false
  end.

(** Events among which none is of [downloadImage]: the Fetcher was not
    invoked. *)
Definition quiet (evs : list Event) : bool :=
  forallb (fun e => negb (of_downloadImage e)) evs.

(** The Render Resolver gives no URL for [nodeId] in any of [formats],
    asked one after the other from the world [w]. *)
Fixpoint resolves_nothing (nodeId : JsString) (formats : list JsString)
    (w : World) : Prop :=
  match formats with
  | [] => True
  | format :: formats =>
      let o := getImageUrl nodeId format w in
      match o.(completion) with
      | Normal url => truthy url = false
      | _ => False
      end /\ resolves_nothing nodeId formats o.(world)
  end.

End Orchestrator.

(** ** Vocabulary of the specification *)

(** Induction on a node with the hypothesis for every child. *)
Fixpoint Node_forest_ind (P : Node -> Prop)
    (step : forall i nm ty box bg ef cs kids,
        match kids with
        | Some l => Forall P l
        | None => True
        end -> P (mkNode i nm ty box bg ef cs kids))
    (n : Node) {struct n} : P n :=
  match n with
  | mkNode i nm ty box bg ef cs kids =>
      step i nm ty box bg ef cs kids
        (match kids as k
               return match k with Some l => Forall P l | None => True end
         with
         | Some l =>
             (fix each (l : list Node) : Forall P l :=
                match l with
                | [] => Forall_nil P
                | kid :: l' =>
                    Forall_cons kid (Node_forest_ind P step kid) (each l')
                end) l
         | None => I
         end)
  end.

(** [occurs m n]: the node [m] is [n] or lies below it, at any depth. *)
Inductive occurs (m : Node) : Node -> Prop :=
| occurs_here : occurs m m
| occurs_below : forall n kids kid,
    n.(children) = Some kids -> In kid kids -> occurs m kid -> occurs m n.

(** [m] is a node of the forest whose roots are [nodes]. *)
Definition in_tree (m : Node) (nodes : list Node) : Prop :=
  exists root, In root nodes /\ occurs m root.

(** The selection predicate of the Tree Filter in the words of the
    specification: the type tag is FRAME and, when target dimensions are
    set, the bounding box is there and its width and height both equal
    the target's (floating-point equality, no tolerance). *)
Definition is_screen (CONFIG : Config) (node : Node) : Prop :=
  node.(type) = lit "FRAME" /\
  forall target, CONFIG.(targetDimensions) = Some target ->
    exists box, node.(absoluteBoundingBox) = Some box /\
      (box.(width) === target.(width)) = true /\
      (box.(height) === target.(height)) = true.

(** The same predicate, decided. *)
Definition selected (CONFIG : Config) (node : Node) : bool :=
  (node.(type) === lit "FRAME") &&
  match CONFIG.(targetDimensions) with
  | None => true
  | Some target =>
      match node.(absoluteBoundingBox) with
      | Some box =>
          (box.(width) === target.(width)) && (box.(height) === target.(height))
      | None => false
      end
  end.

(** Depth-first pre-order: a node, then the subtrees of its children
    from first to last. *)
Fixpoint preorder (node : Node) : list Node :=
  node :: match node.(children) with
          | Some kids => flat_map preorder kids
          | None => []
          end.

(** Document order of a forest. *)
Definition document_order (nodes : list Node) : list Node :=
  flat_map preorder nodes.

(** The records of the selected nodes of a list, in the order of the list. *)
Definition kept (CONFIG : Config) (nodes : list Node) : list Screen.t :=
  map screenData (filter (selected CONFIG) nodes).

(** What the Sanitizer does to one code unit, in the words of the
    specification: a reserved character becomes a hyphen (code unit 45),
    any other stays. *)
Definition hyphen : N := 45%N.

Definition sanitized_unit (c : N) : N :=
  if in_class invalid_characters c then hyphen else c.

(** A name without reserved character. *)
Definition clean (s : JsString) : Prop :=
  forall c, In c s -> in_class invalid_characters c = false.

(** The two shapes of candidate path of the Namer. *)
Definition plain_path (basePath extension : JsString) : JsString :=
  basePath ++ lit "." ++ extension.

Definition numbered_path (basePath : JsString) (k : N) (extension : JsString)
  : JsString :=
  basePath ++ lit "-" ++ decimal k ++ lit "." ++ extension.

(** A directory given by the list of its occupied paths. *)
Definition occupied_by (paths : list JsString) : JsString -> bool :=
  fun p => existsb (JsString_eqb p) paths.

(** ** A runtime to run examples on

    No network: every request fails with the message [offline], except
    that the images endpoint answers with [null]; the disk is the list
    of its occupied paths and accepts every write. *)
#[global] Instance offline : Runtime := {|
  Net := unit;
  FS := list JsString;
  fs_existsSync := fun disk p => occupied_by disk p;
  fs_writeFileSync := fun disk p _ => (None, p :: disk);
  get_file := fun n => (inl (mkError (lit "offline")), n);
  get_images := fun n _ _ => (inr None, n);
  get_arraybuffer := fun n _ => (inl (mkError (lit "offline")), n);
  path_join := fun dir file => dir ++ lit "/" ++ file;
  Number_toString := fun _ => lit "NaN"
|}.

(** A disk that refuses every write and stays as it is, behind a network
    that serves one byte for every URL.  In the runtimes of this file [path_join] puts a
    slash between its arguments, and [Number_toString] is never reached,
    the file names of the examples carrying no dimensions. *)
Definition read_only : Runtime := {|
  Net := unit;
  FS := list JsString;
  fs_existsSync := fun disk p => occupied_by disk p;
  fs_writeFileSync := fun disk _ _ => (Some (mkError (lit "EROFS")), disk);
  get_file := fun n => (inl (mkError (lit "offline")), n);
  get_images := fun n _ _ => (inr None, n);
  get_arraybuffer := fun n _ => (inr [x00], n);
  path_join := fun dir file => dir ++ lit "/" ++ file;
  Number_toString := fun _ => lit "NaN"
|}.

(** A small document: a 375x812 frame [Home] holding a 375x812 frame
    [Card], a group, and a frame without bounding box. *)
Definition leaf (i nm ty : string) (box : option Dimensions) : Node :=
  mkNode (lit i) (lit nm) (lit ty) box None None None None.

Definition phone : option Dimensions :=
  Some {| width := 375%float; height := 812%float |}.

Definition card : Node := leaf "1:2" "Card" "FRAME" phone.
Definition ghost : Node := leaf "1:4" "Ghost" "FRAME" None.

Definition home : Node :=
  mkNode (lit "1:1") (lit "Home") (lit "FRAME") phone None None None
         (Some [card; leaf "1:3" "Icons" "GROUP" phone]).

Definition sample_document : list Node := [home; ghost].

(** Three frames of sizes 375x812, 375x813 and 1920x1080. *)
Definition three_sizes : list Node :=
  [leaf "2:1" "A" "FRAME" (Some {| width := 375%float; height := 812%float |});
   leaf "2:2" "B" "FRAME" (Some {| width := 375%float; height := 813%float |});
   leaf "2:3" "C" "FRAME" (Some {| width := 1920%float; height := 1080%float |})].

(** A document with two phone-sized frames of the same name. *)
Definition login (i : string) : Node := leaf i "Log/in" "FRAME" phone.

Definition two_logins : Node :=
  mkNode (lit "0:0") (lit "Document") (lit "DOCUMENT") None None None None
         (Some [login "3:1"; login "3:2"]).

(** A remote side that serves [two_logins], a URL for every node and
    format, and one byte for every URL, in front of a disk that accepts
    every write. *)
Definition serving : Runtime := {|
  Net := unit;
  FS := list JsString;
  fs_existsSync := fun disk p => occupied_by disk p;
  fs_writeFileSync := fun disk p _ => (None, p :: disk);
  get_file := fun n => (inr two_logins, n);
  get_images := fun n i f => (inr (Some (lit "https://cdn/" ++ i ++ lit "." ++ f)), n);
  get_arraybuffer := fun n _ => (inr [x00], n);
  path_join := fun dir file => dir ++ lit "/" ++ file;
  Number_toString := fun _ => lit "NaN"
|}.

(** ** Further vocabulary *)

(** [CONFIG] with [targetDimensions] set to [null]. *)
Definition without_filter (CONFIG : Config) : Config :=
  mkConfig CONFIG.(outputDir) CONFIG.(imageFormats) CONFIG.(includeDimensions)
           CONFIG.(apiDelay) None.

(** The dimension test of [traverse], on a record. *)
Definition fits (target : Dimensions) (r : Screen.t) : bool :=
  match r.(Screen.absoluteBoundingBox) with
  | Some box =>
      (box.(width) === target.(width)) && (box.(height) === target.(height))
  | None => false
  end.

(** The two lines by which [main] reports on a record: the success line
    of the format loop and the failure line after it. *)
Definition is_report (e : Event) : bool :=
  match e with
  | ConsoleLog (DownloadedAs _ _) => true
  | ConsoleLog (FailedToDownloadScreen _) => true
  | _ => false
  end.

(** An event is no render request, or is one for a record of
    [screenNodes] in a format of [formats]. *)
Definition requests_within (screenNodes : list Screen.t) (formats : list JsString)
    (e : Event) : Prop :=
  match e with
  | RequestImages nodeId format =>
      (exists node, In node screenNodes /\ node.(Screen.id) = nodeId) /\
      In format formats
  | _ => True
  end.

(** Every state of the disk holds finitely many paths. *)
Definition finite_disks (RT : Runtime) : Prop :=
  forall disk : FS, exists occupied : list JsString,
    forall p, fs_existsSync disk p = true -> In p occupied.

(** The disk after the writes among [evs], made one after the other
    from [disk]. *)
Fixpoint disk_after {RT : Runtime} (disk : FS) (evs : list Event) : FS :=
  match evs with
  | [] => disk
  | WriteFileSync filePath data :: evs =>
      disk_after (snd (fs_writeFileSync disk filePath data)) evs
  | _ :: evs => disk_after disk evs
  end.

(** Every write among [evs], whether it throws or not, is to a path
    that [fs.existsSync] denies on the disk as it is at that moment. *)
Fixpoint writes_fresh {RT : Runtime} (disk : FS) (evs : list Event) : Prop :=
  match evs with
  | [] => True
  | WriteFileSync filePath data :: evs =>
      fs_existsSync disk filePath = false /\
      writes_fresh (snd (fs_writeFileSync disk filePath data)) evs
  | _ :: evs => writes_fresh disk evs
  end.

(** The number of writes among [evs] that do not throw. *)
Fixpoint written {RT : Runtime} (disk : FS) (evs : list Event) : nat :=
  match evs with
  | [] => 0
  | WriteFileSync filePath data :: evs =>
      (match fst (fs_writeFileSync disk filePath data) with
       | None => 1
       | Some _ => 0
       end) + written (snd (fs_writeFileSync disk filePath data)) evs
  | _ :: evs => written disk evs
  end.

(** The writes among [evs], made from [disk]: each is to a fresh path,
    they leave [disk'], and [k] of them do not throw. *)
Definition writes_of {RT : Runtime} (disk : FS) (evs : list Event) (disk' : FS)
    (k : nat) : Prop :=
  writes_fresh disk evs /\ disk_after disk evs = disk' /\ written disk evs = k.

(** The shipped configuration with dimensions in the file names. *)
Definition WITH_DIMENSIONS : Config :=
  mkConfig SHIPPED_CONFIG.(outputDir) [lit "png"] true 200
           SHIPPED_CONFIG.(targetDimensions).

(** A number printer for examples: a whole number prints in decimal, as
    in JavaScript (for magnitudes below 10^21); a number with a fraction
    is outside its scope and prints as [NaN]. *)
Definition whole_toString (x : float) : JsString :=
  match Prim2SF x with
  | S754_zero _ => lit "0"
  | S754_infinity s => (if s then lit "-" else []) ++ lit "Infinity"
  | S754_nan => lit "NaN"
  | S754_finite s m e =>
      let whole :=
        if (0 <=? e)%Z then Some (N.pos m * 2 ^ Z.to_N e)%N
        else let d := (2 ^ Z.to_N (- e))%N in
             if (N.pos m mod d =? 0)%N then Some (N.pos m / d)%N else None in
      match whole with
      | Some k => (if s then lit "-" else []) ++ decimal k
      | None => lit "NaN"
      end
  end.

(** The [offline] runtime with that printer. *)
Definition measuring : Runtime := {|
  Net := unit;
  FS := list JsString;
  fs_existsSync := fun disk p => occupied_by disk p;
  fs_writeFileSync := fun disk p _ => (None, p :: disk);
  get_file := fun n => (inl (mkError (lit "offline")), n);
  get_images := fun n _ _ => (inr None, n);
  get_arraybuffer := fun n _ => (inl (mkError (lit "offline")), n);
  path_join := fun dir file => dir ++ lit "/" ++ file;
  Number_toString := whole_toString
|}.

(** A disk whose first write throws after the file was created, behind
    the remote side of [serving]. *)
Definition interrupted : Runtime := {|
  Net := unit;
  FS := list JsString;
  fs_existsSync := fun disk p => occupied_by disk p;
  fs_writeFileSync := fun disk p _ =>
    match disk with
    | [] => (Some (mkError (lit "ENOSPC")), [p])
    | _ => (None, p :: disk)
    end;
  get_file := fun n => (inr two_logins, n);
  get_images := fun n i f => (inr (Some (lit "https://cdn/" ++ i ++ lit "." ++ f)), n);
  get_arraybuffer := fun n _ => (inr [x00], n);
  path_join := fun dir file => dir ++ lit "/" ++ file;
  Number_toString := fun _ => lit "NaN"
|}.

(** The shipped configuration with a second format to fall back on. *)
Definition PNG_THEN_SVG : Config :=
  mkConfig SHIPPED_CONFIG.(outputDir) [lit "png"; lit "svg"] false 200
           SHIPPED_CONFIG.(targetDimensions).

(** The events of a turn of the export loop before its format loop: the
    line naming the screen and, when the record has a box, the line
    with its dimensions. *)
Definition preamble (node : Screen.t) : list Event :=
  ConsoleLog (ExportingScreen node.(Screen.name)) ::
  match node.(Screen.absoluteBoundingBox) with
  | Some box => [ConsoleLog (DimensionsOf box)]
  | None => []
  end.

(** The shipped configuration looking for frames of 1x1. *)
Definition TINY_TARGET : Config :=
  mkConfig SHIPPED_CONFIG.(outputDir) [lit "png"] false 200
           (Some {| width := 1%float; height := 1%float |}).

(** A remote side whose document has no [children] property. *)
Definition childless : Runtime := {|
  Net := unit;
  FS := list JsString;
  fs_existsSync := fun disk p => occupied_by disk p;
  fs_writeFileSync := fun disk p _ => (None, p :: disk);
  get_file := fun n => (inr ghost, n);
  get_images := fun n _ _ => (inr None, n);
  get_arraybuffer := fun n _ => (inl (mkError (lit "offline")), n);
  path_join := fun dir file => dir ++ lit "/" ++ file;
  Number_toString := fun _ => lit "NaN"
|}.

(** * Properties *)

Unset Implicit Arguments.

(** ** Strict equality on strings *)

Lemma JsString_eqb_eq (a b : JsString) : JsString_eqb a b = true <-> a = b.
Proof.
  revert b; induction a as [|c a IH]; intros [|d b]; simpl;
    try (split; [discriminate | congruence]); try tauto.
  rewrite andb_true_iff, N.eqb_eq, IH.
  split; [intros [-> ->]; reflexivity | intros [= -> ->]; auto].
Qed.

Lemma JsString_eqb_refl (a : JsString) : JsString_eqb a a = true.
Proof. apply JsString_eqb_eq; reflexivity. Qed.

(** ** Tree Filter *)

Section TreeFilterFacts.

Variable CONFIG : Config.

Lemma selected_iff (node : Node) :
  selected CONFIG node = true <-> is_screen CONFIG node.
Proof.
  unfold selected, is_screen, strict_equals at 1, StrictEquals_string.
  rewrite andb_true_iff, JsString_eqb_eq.
  destruct (targetDimensions CONFIG) as [target|].
  - destruct (absoluteBoundingBox node) as [box|].
    + rewrite andb_true_iff. split.
      * intros [Hty [Hw Hh]]; split; [exact Hty|].
        intros t [= <-]. exists box; auto.
      * intros [Hty H]; split; [exact Hty|].
        destruct (H target eq_refl) as [b [[= <-] Hwh]]; exact Hwh.
    + split.
      * intros [_ H]; discriminate.
      * intros [_ H]. destruct (H target eq_refl) as [b [Hb _]]; discriminate.
  - split; intros [Hty _]; split; auto. intros t; discriminate.
Qed.

(** One visit pushes the record of the node when the node is selected
    and leaves [screenNodes] alone otherwise. *)
Lemma visit_selected (node : Node) (screenNodes : list Screen.t) :
  visit CONFIG node screenNodes =
  screenNodes ++ (if selected CONFIG node then [screenData node] else []).
Proof.
  unfold visit, selected.
  destruct (type node === lit "FRAME"); simpl.
  - destruct (targetDimensions CONFIG) as [target|];
      [destruct (absoluteBoundingBox node) as [box|]|];
      rewrite ?app_nil_r; try reflexivity.
    destruct ((width box === width target) && (height box === height target));
      rewrite ?app_nil_r; reflexivity.
  - rewrite app_nil_r; reflexivity.
Qed.

(** A [forEach] whose callback only appends is a [flat_map]. *)
Lemma forEach_appends {A B : Type} (f : A -> list B -> list B) (g : A -> list B)
    {l : list A} :
  Forall (fun a => forall acc, f a acc = acc ++ g a) l ->
  forall acc, fold_left (fun acc a => f a acc) l acc = acc ++ flat_map g l.
Proof.
  induction 1 as [|a l Ha _ IH]; intros acc; simpl.
  - rewrite app_nil_r; reflexivity.
  - rewrite Ha, IH, <- app_assoc; reflexivity.
Qed.

Lemma kept_app (l1 l2 : list Node) : kept CONFIG (l1 ++ l2) = kept CONFIG l1 ++ kept CONFIG l2.
Proof. unfold kept; rewrite filter_app, map_app; reflexivity. Qed.

Lemma kept_flat_map (f : Node -> list Node) (l : list Node) :
  kept CONFIG (flat_map f l) = flat_map (fun n => kept CONFIG (f n)) l.
Proof.
  induction l as [|n l IH]; simpl; [reflexivity|].
  rewrite kept_app, IH; reflexivity.
Qed.

(** [traverse] appends to [screenNodes] the records of the selected
    nodes of the subtree, in pre-order. *)
Lemma traverse_preorder (node : Node) :
  forall screenNodes,
    traverse CONFIG node screenNodes = screenNodes ++ kept CONFIG (preorder node).
Proof.
  induction node as [i nm ty box bg ef cs kids IH] using Node_forest_ind.
  intros screenNodes.
  cbn [traverse preorder children].
  rewrite visit_selected.
  change (kept CONFIG (?n :: ?l)) with (kept CONFIG ([n] ++ l)).
  rewrite kept_app.
  assert (Hhead : forall n, kept CONFIG [n] = if selected CONFIG n then [screenData n] else []).
  { intros n; unfold kept; simpl. destruct (selected CONFIG n); reflexivity. }
  rewrite Hhead.
  destruct kids as [l|].
  - rewrite (forEach_appends (fun kid acc => traverse CONFIG kid acc)
               (fun kid => kept CONFIG (preorder kid)) IH).
    rewrite kept_flat_map, app_assoc; reflexivity.
  - rewrite app_assoc, app_nil_r; reflexivity.
Qed.

Lemma extractScreenNodes_kept (nodes : list Node) :
  extractScreenNodes CONFIG nodes = kept CONFIG (document_order nodes).
Proof.
  unfold extractScreenNodes, document_order.
  rewrite (forEach_appends (fun n acc => traverse CONFIG n acc)
             (fun n => kept CONFIG (preorder n))).
  - rewrite kept_flat_map; reflexivity.
  - apply Forall_forall; intros n _ acc; apply traverse_preorder.
Qed.

End TreeFilterFacts.

(** The nodes of a subtree are the entries of its pre-order listing. *)
Lemma occurs_In_preorder (m n : Node) : occurs m n -> In m (preorder n).
Proof.
  induction 1 as [|n kids kid Hkids Hin _ IH].
  - destruct m; simpl; auto.
  - destruct n as [i nm ty box bg ef cs ks]; simpl in *; subst ks.
    right. apply in_flat_map. exists kid; auto.
Qed.

Lemma In_preorder_occurs (n : Node) : forall m, In m (preorder n) -> occurs m n.
Proof.
  induction n as [i nm ty box bg ef cs kids IH] using Node_forest_ind.
  intros m [<-|Hin]; [constructor|].
  destruct kids as [l|]; [|contradiction].
  apply in_flat_map in Hin. destruct Hin as [kid [Hkid Hm]].
  rewrite Forall_forall in IH.
  eapply occurs_below; [reflexivity | exact Hkid | apply IH; assumption].
Qed.

Lemma in_tree_document_order (m : Node) (nodes : list Node) :
  in_tree m nodes <-> In m (document_order nodes).
Proof.
  unfold in_tree, document_order. rewrite in_flat_map.
  split; intros [root [Hroot Hm]]; exists root; split; auto.
  - apply occurs_In_preorder; assumption.
  - apply In_preorder_occurs; assumption.
Qed.

Lemma occurs_trans (a b c : Node) : occurs a b -> occurs b c -> occurs a c.
Proof.
  intros Hab Hbc. induction Hbc as [|n kids kid Hkids Hin _ IH]; [assumption|].
  eapply occurs_below; eauto.
Qed.

Lemma in_tree_below (inner outer : Node) (nodes : list Node) :
  in_tree outer nodes -> occurs inner outer -> in_tree inner nodes.
Proof.
  intros [root [Hroot Hto]] Hin. exists root; split; [assumption|].
  eapply occurs_trans; eassumption.
Qed.

(** Membership in the output, in terms of the tree. *)
Lemma In_extractScreenNodes (CONFIG : Config) (nodes : list Node) (r : Screen.t) :
  In r (extractScreenNodes CONFIG nodes) <->
  exists n, in_tree n nodes /\ is_screen CONFIG n /\ r = screenData n.
Proof.
  rewrite extractScreenNodes_kept. unfold kept. rewrite in_map_iff.
  split.
  - intros [n [<- Hn]]. apply filter_In in Hn. destruct Hn as [Hn Hsel].
    exists n. rewrite in_tree_document_order, <- selected_iff. auto.
  - intros [n [Hn [Hsel ->]]]. exists n. split; [reflexivity|].
    apply filter_In. rewrite <- in_tree_document_order, selected_iff. auto.
Qed.

(** The subtree of a node of the tree is a segment of the document
    order. *)
Lemma occurs_segment (m n : Node) :
  occurs m n -> exists before after, preorder n = before ++ preorder m ++ after.
Proof.
  induction 1 as [|n kids kid Hkids Hin _ [a [b IH]]].
  - exists [], []. rewrite app_nil_r. reflexivity.
  - destruct (in_split _ _ Hin) as [k1 [k2 ->]].
    destruct n as [i nm ty box bg ef cs ks]; simpl in Hkids; subst ks.
    exists (mkNode i nm ty box bg ef cs (Some (k1 ++ kid :: k2))
              :: flat_map preorder k1 ++ a),
           (b ++ flat_map preorder k2).
    cbn [preorder children]. rewrite flat_map_app. cbn [flat_map].
    rewrite IH. cbn [app]. rewrite <- !app_assoc. reflexivity.
Qed.

Lemma in_tree_segment (m : Node) (nodes : list Node) :
  in_tree m nodes ->
  exists before after, document_order nodes = before ++ preorder m ++ after.
Proof.
  intros [root [Hroot Hm]].
  destruct (in_split _ _ Hroot) as [r1 [r2 ->]].
  destruct (occurs_segment _ _ Hm) as [a [b Hseg]].
  exists (flat_map preorder r1 ++ a), (b ++ flat_map preorder r2).
  unfold document_order. rewrite flat_map_app. cbn [flat_map].
  rewrite Hseg, <- !app_assoc. reflexivity.
Qed.

(** A selected node and a selected node strictly below it give two
    entries of the output, the outer one first. *)
Lemma nested_both_kept (CONFIG : Config) (nodes : list Node) (n inner : Node)
    (kids : list Node) (kid : Node) :
  in_tree n nodes -> selected CONFIG n = true ->
  children n = Some kids -> In kid kids -> occurs inner kid ->
  selected CONFIG inner = true ->
  exists i j, i < j /\
    nth_error (extractScreenNodes CONFIG nodes) i = Some (screenData n) /\
    nth_error (extractScreenNodes CONFIG nodes) j = Some (screenData inner).
Proof.
  intros Hn Hsel Hkids Hkid Hinner Hselinner.
  destruct (in_tree_segment _ _ Hn) as [l1 [l2 Hdoc]].
  destruct (in_split _ _ Hkid) as [k1 [k2 ->]].
  destruct (occurs_segment _ _ Hinner) as [a [b Hseg]].
  assert (Hpre : preorder n =
                 n :: (flat_map preorder k1 ++ a) ++ inner ::
                   (match children inner with
                    | Some l => flat_map preorder l
                    | None => []
                    end ++ b ++ flat_map preorder k2)).
  { destruct n as [i0 nm ty box bg ef cs ks]; simpl in Hkids; subst ks.
    cbn [preorder children]. rewrite flat_map_app. cbn [flat_map].
    rewrite Hseg. destruct inner as [i1 nm1 ty1 box1 bg1 ef1 cs1 ks1].
    cbn [preorder children]. rewrite <- !app_assoc. reflexivity. }
  rewrite extractScreenNodes_kept, Hdoc, Hpre.
  set (p := flat_map preorder k1 ++ a).
  set (q := match children inner with
            | Some l => flat_map preorder l
            | None => []
            end ++ b ++ flat_map preorder k2).
  change (n :: p ++ inner :: q) with ([n] ++ p ++ [inner] ++ q).
  rewrite !kept_app.
  assert (Hone : forall x, selected CONFIG x = true -> kept CONFIG [x] = [screenData x]).
  { intros x Hx. unfold kept. simpl. rewrite Hx. reflexivity. }
  rewrite (Hone n Hsel), (Hone inner Hselinner).
  exists (List.length (kept CONFIG l1)),
         (List.length (kept CONFIG l1) + S (List.length (kept CONFIG p))).
  split; [lia|]. split.
  - rewrite nth_error_app2 by lia. rewrite Nat.sub_diag. reflexivity.
  - rewrite nth_error_app2 by lia.
    replace (List.length (kept CONFIG l1) + S (List.length (kept CONFIG p))
             - List.length (kept CONFIG l1)) with (S (List.length (kept CONFIG p))) by lia.
    rewrite <- !app_assoc. cbn [app nth_error].
    rewrite nth_error_app2 by lia. rewrite Nat.sub_diag. reflexivity.
Qed.

(** C1. Completeness of the Tree Filter: a node of the tree, at any
    depth, whose type tag is FRAME and which passes the dimension filter
    when one is configured is in the output of [extractScreenNodes]: the
    output holds the record with that node's id, name, type, bounding
    box and metadata.  When such a node has another such node nested
    below it, both are in the output, as two entries, the outer node's
    record before the nested node's. *)
Theorem extractScreenNodes_complete (CONFIG : Config) (nodes : list Node) (n : Node) :
  in_tree n nodes ->
  is_screen CONFIG n ->
  In {| Screen.id := n.(id);
        Screen.name := n.(name);
        Screen.type := n.(type);
        Screen.absoluteBoundingBox := n.(absoluteBoundingBox);
        Screen.backgroundColor := n.(backgroundColor);
        Screen.effects := n.(effects);
        Screen.constraints := n.(constraints) |}
     (extractScreenNodes CONFIG nodes) /\
  forall kids kid inner,
    n.(children) = Some kids -> In kid kids -> occurs inner kid ->
    is_screen CONFIG inner ->
    exists i j, i < j /\
      nth_error (extractScreenNodes CONFIG nodes) i =
        Some {| Screen.id := n.(id);
                Screen.name := n.(name);
                Screen.type := n.(type);
                Screen.absoluteBoundingBox := n.(absoluteBoundingBox);
                Screen.backgroundColor := n.(backgroundColor);
                Screen.effects := n.(effects);
                Screen.constraints := n.(constraints) |} /\
      nth_error (extractScreenNodes CONFIG nodes) j =
        Some {| Screen.id := inner.(id);
                Screen.name := inner.(name);
                Screen.type := inner.(type);
                Screen.absoluteBoundingBox := inner.(absoluteBoundingBox);
                Screen.backgroundColor := inner.(backgroundColor);
                Screen.effects := inner.(effects);
                Screen.constraints := inner.(constraints) |}.
Proof.
  intros Hn Hscreen. split.
  - apply (proj2 (In_extractScreenNodes CONFIG nodes (screenData n))).
    exists n; auto.
  - intros kids kid inner Hkids Hkid Hinner Hs.
    apply (nested_both_kept CONFIG nodes n inner kids kid); try assumption;
      apply selected_iff; assumption.
Qed.

Lemma extractScreenNodes_complete_witness :
  in_tree home sample_document /\
  is_screen SHIPPED_CONFIG home /\
  In {| Screen.id := lit "1:1";
        Screen.name := lit "Home";
        Screen.type := lit "FRAME";
        Screen.absoluteBoundingBox := phone;
        Screen.backgroundColor := None;
        Screen.effects := None;
        Screen.constraints := None |}
     (extractScreenNodes SHIPPED_CONFIG sample_document) /\
  exists i j, i < j /\
    option_map Screen.name (nth_error (extractScreenNodes SHIPPED_CONFIG sample_document) i)
      = Some (lit "Home") /\
    option_map Screen.name (nth_error (extractScreenNodes SHIPPED_CONFIG sample_document) j)
      = Some (lit "Card").
Proof.
  assert (Htree : in_tree home sample_document).
  { exists home; split; [left; reflexivity | constructor]. }
  assert (Hhome : is_screen SHIPPED_CONFIG home).
  { apply selected_iff; reflexivity. }
  destruct (extractScreenNodes_complete SHIPPED_CONFIG sample_document home Htree Hhome)
    as [Hout Hnested].
  split; [exact Htree|]. split; [exact Hhome|]. split; [exact Hout|].
  destruct (Hnested _ card card eq_refl (or_introl eq_refl) (occurs_here card))
    as [i [j [Hij [Hi Hj]]]].
  { apply selected_iff; reflexivity. }
  exists i, j. split; [exact Hij|].
  rewrite Hi, Hj. split; reflexivity.
Defined.

(** C2. Soundness of the Tree Filter: every record of the output has
    type tag FRAME; when target dimensions are configured its bounding
    box is present and its width and height equal the target's; and it
    is the record of a node of the tree that satisfies the selection
    predicate, so nothing else is ever in the output. *)
Theorem extractScreenNodes_sound (CONFIG : Config) (nodes : list Node) (r : Screen.t) :
  In r (extractScreenNodes CONFIG nodes) ->
  r.(Screen.type) = lit "FRAME" /\
  (forall target, CONFIG.(targetDimensions) = Some target ->
     exists box, r.(Screen.absoluteBoundingBox) = Some box /\
       (box.(width) === target.(width)) = true /\
       (box.(height) === target.(height)) = true) /\
  exists n, in_tree n nodes /\ is_screen CONFIG n /\ r = screenData n.
Proof.
  intros Hr. apply In_extractScreenNodes in Hr.
  destruct Hr as [n [Hn [Hscreen ->]]].
  destruct Hscreen as [Hty Hbox] eqn:E; clear E.
  split; [exact Hty|]. split; [exact Hbox|].
  exists n; repeat split; auto.
Qed.

Lemma extractScreenNodes_sound_witness :
  In (screenData card) (extractScreenNodes SHIPPED_CONFIG sample_document) /\
  (screenData card).(Screen.type) = lit "FRAME".
Proof.
  assert (Hin : In (screenData card) (extractScreenNodes SHIPPED_CONFIG sample_document)).
  { right; left; reflexivity. }
  split; [exact Hin|].
  exact (proj1 (extractScreenNodes_sound SHIPPED_CONFIG sample_document _ Hin)).
Defined.

(** C3. With a dimension filter configured, a node without bounding box
    is left out of the output even when its type tag is FRAME: its
    record is not in the output, and no record of the output lacks a
    bounding box. *)
Theorem extractScreenNodes_excludes_boxless (CONFIG : Config) (target : Dimensions)
    (nodes : list Node) (n : Node) :
  CONFIG.(targetDimensions) = Some target ->
  n.(absoluteBoundingBox) = None ->
  ~ In (screenData n) (extractScreenNodes CONFIG nodes) /\
  forall r, In r (extractScreenNodes CONFIG nodes) ->
    r.(Screen.absoluteBoundingBox) <> None.
Proof.
  intros Htarget Hbox.
  assert (Hall : forall r, In r (extractScreenNodes CONFIG nodes) ->
                           r.(Screen.absoluteBoundingBox) <> None).
  { intros r Hr. apply In_extractScreenNodes in Hr.
    destruct Hr as [m [_ [[_ Hm] ->]]].
    destruct (Hm target Htarget) as [box [Hsome _]].
    simpl. rewrite Hsome. discriminate. }
  split; [|exact Hall].
  intros Hin. apply (Hall _ Hin). exact Hbox.
Qed.

Lemma extractScreenNodes_excludes_boxless_witness :
  ghost.(type) = lit "FRAME" /\
  in_tree ghost sample_document /\
  ~ In (screenData ghost) (extractScreenNodes SHIPPED_CONFIG sample_document).
Proof.
  split; [reflexivity|]. split.
  - exists ghost; split; [right; left; reflexivity | constructor].
  - exact (proj1 (@extractScreenNodes_excludes_boxless SHIPPED_CONFIG
                    {| width := SCREEN_WIDTH; height := SCREEN_HEIGHT |}
                    sample_document ghost eq_refl eq_refl)).
Defined.

(** C4. The output of [extractScreenNodes] lists the selected nodes in
    depth-first pre-order (document order) of the whole forest, with no
    reordering: it is the pre-order listing, filtered by the selection
    predicate, each node given by the record of its id, name, type,
    bounding box and metadata; so the ids of the output are the ids of
    the selected nodes in document order, and so are the names. *)
Theorem extractScreenNodes_document_order (CONFIG : Config) (nodes : list Node) :
  extractScreenNodes CONFIG nodes =
  map (fun n => {| Screen.id := n.(id);
                   Screen.name := n.(name);
                   Screen.type := n.(type);
                   Screen.absoluteBoundingBox := n.(absoluteBoundingBox);
                   Screen.backgroundColor := n.(backgroundColor);
                   Screen.effects := n.(effects);
                   Screen.constraints := n.(constraints) |})
      (filter (selected CONFIG) (document_order nodes)) /\
  map Screen.id (extractScreenNodes CONFIG nodes) =
  map id (filter (selected CONFIG) (document_order nodes)) /\
  map Screen.name (extractScreenNodes CONFIG nodes) =
  map name (filter (selected CONFIG) (document_order nodes)).
Proof.
  split; [exact (extractScreenNodes_kept CONFIG nodes)|].
  rewrite extractScreenNodes_kept. unfold kept. rewrite !map_map.
  split; reflexivity.
Qed.

(** The shipped filter on the sample document keeps [Home], then the
    [Card] nested in it, and neither the group nor the boxless frame. *)
Example extractScreenNodes_sample :
  extractScreenNodes SHIPPED_CONFIG sample_document = [screenData home; screenData card].
Proof. reflexivity. Qed.

(** Of the sizes 375x812, 375x813 and 1920x1080 exactly one passes the
    filter 375x812. *)
Example extractScreenNodes_three_sizes :
  map Screen.name (extractScreenNodes SHIPPED_CONFIG three_sizes) = [lit "A"].
Proof. reflexivity. Qed.

(** Without filter every frame is kept, the boxless one too. *)
Example extractScreenNodes_unfiltered :
  map Screen.name
    (extractScreenNodes (mkConfig (outputDir SHIPPED_CONFIG) [lit "png"] false 200 None)
       sample_document)
  = [lit "Home"; lit "Card"; lit "Ghost"].
Proof. reflexivity. Qed.

(** Equality of dimensions is [===]: a target of [NaN] selects nothing,
    not even a box of [NaN]. *)
Example NaN_target_selects_nothing :
  let box := Some {| width := nan; height := 812%float |} in
  selected (mkConfig [] [] false 0 box) (leaf "4:1" "N" "FRAME" box) = false.
Proof. reflexivity. Qed.

(** ** Sanitizer *)

Lemma replace_class_g_unit (class : list N) (r : N) (s : JsString) :
  replace_class_g class [r] s = map (fun c => if in_class class c then r else c) s.
Proof.
  unfold replace_class_g. induction s as [|c s IH]; simpl; [reflexivity|].
  rewrite IH. destruct (in_class class c); reflexivity.
Qed.

Lemma sanitizeFileName_map (name : JsString) :
  sanitizeFileName name = map sanitized_unit name.
Proof. apply (replace_class_g_unit invalid_characters hyphen). Qed.

Lemma hyphen_not_reserved : in_class invalid_characters hyphen = false.
Proof. reflexivity. Qed.

Lemma sanitized_unit_idem (c : N) : sanitized_unit (sanitized_unit c) = sanitized_unit c.
Proof.
  unfold sanitized_unit.
  destruct (in_class invalid_characters c) eqn:E.
  - rewrite hyphen_not_reserved. reflexivity.
  - rewrite E. reflexivity.
Qed.

Lemma sanitized_unit_clean (c : N) :
  in_class invalid_characters c = false -> sanitized_unit c = c.
Proof. unfold sanitized_unit. intros ->. reflexivity. Qed.

(** Code units from 128 on are not in the class. *)
Lemma non_ascii_not_reserved (c : N) :
  (128 <= c)%N -> in_class invalid_characters c = false.
Proof.
  intros Hc. unfold in_class, invalid_characters. simpl.
  repeat (rewrite orb_false_iff; split); try reflexivity;
    apply N.eqb_neq; lia.
Qed.

(** C5. [sanitizeFileName] keeps the length of the name and acts
    position by position: the code unit at each index becomes a hyphen
    when it is one of the ten reserved characters (slash, backslash,
    question mark, percent, asterisk, colon, vertical bar, double quote,
    less-than, greater-than) and is unchanged otherwise; non-ASCII code
    units are never reserved; and the name A/B:C becomes A-B-C. *)
Theorem sanitizeFileName_positionwise :
  invalid_characters = lit "/\?%*:|" ++ [34%N] ++ lit "<>" /\
  (forall name, List.length (sanitizeFileName name) = List.length name) /\
  (forall name i,
      nth_error (sanitizeFileName name) i =
      option_map (fun c => if in_class invalid_characters c then hyphen else c)
                 (nth_error name i)) /\
  (forall c, (128 <= c)%N -> in_class invalid_characters c = false) /\
  sanitizeFileName (lit "A/B:C") = lit "A-B-C".
Proof.
  split; [reflexivity|].
  split; [intros name; rewrite sanitizeFileName_map; apply length_map|].
  split; [intros name i; rewrite sanitizeFileName_map; apply nth_error_map|].
  split; [exact non_ascii_not_reserved | reflexivity].
Qed.

(** C6. [sanitizeFileName] is a function of its argument (equal names
    give equal results); it returns a name without reserved characters
    as it is; and applying it twice is the same as applying it once. *)
Theorem sanitizeFileName_idempotent (s : JsString) :
  (forall s', s = s' -> sanitizeFileName s = sanitizeFileName s') /\
  (clean s -> sanitizeFileName s = s) /\
  sanitizeFileName (sanitizeFileName s) = sanitizeFileName s.
Proof.
  split; [intros s' <-; reflexivity|]. split.
  - intros Hclean. rewrite sanitizeFileName_map.
    rewrite <- (map_id s) at 2. apply map_ext_in.
    intros c Hc. apply sanitized_unit_clean, Hclean, Hc.
  - rewrite !sanitizeFileName_map, map_map.
    apply map_ext. exact sanitized_unit_idem.
Qed.

Lemma sanitizeFileName_idempotent_witness :
  clean (lit "Login") /\ sanitizeFileName (lit "Login") = lit "Login".
Proof.
  assert (Hclean : clean (lit "Login")).
  { intros c Hc. simpl in Hc.
    repeat (destruct Hc as [<-|Hc]; [reflexivity|]). contradiction. }
  split; [exact Hclean|].
  exact (proj1 (proj2 (sanitizeFileName_idempotent (lit "Login"))) Hclean).
Defined.

(** ** Namer *)

Lemma lit_inj (s t : string) : lit s = lit t -> s = t.
Proof.
  unfold lit. intros H.
  rewrite <- (string_of_list_ascii_of_string s), <- (string_of_list_ascii_of_string t).
  f_equal.
  revert H. generalize (list_ascii_of_string s) (list_ascii_of_string t).
  induction l as [|a l IH]; intros [|b l']; simpl; try discriminate; [reflexivity|].
  intros [= Hab Hl]. f_equal; [|apply IH; exact Hl].
  rewrite <- (ascii_N_embedding a), <- (ascii_N_embedding b), Hab. reflexivity.
Qed.

(** Different counters print differently. *)
Lemma decimal_inj (j k : N) : decimal j = decimal k -> j = k.
Proof.
  unfold decimal. intros H. apply lit_inj in H.
  apply DecimalN.Unsigned.to_uint_inj.
  assert (Hs : Some (N.to_uint j) = Some (N.to_uint k)).
  { rewrite <- !NilEmpty.usu, H. reflexivity. }
  injection Hs; auto.
Qed.

Lemma numbered_path_inj (basePath extension : JsString) (j k : N) :
  numbered_path basePath j extension = numbered_path basePath k extension -> j = k.
Proof.
  unfold numbered_path. intros H.
  do 2 apply app_inv_head in H.
  apply app_inv_tail in H. apply decimal_inj, H.
Qed.

Section UniquePathFacts.

Variable existsSync : JsString -> bool.
Variables basePath extension : JsString.

Let loop := getUniqueFilePath_loop existsSync.
Let candidate (k : N) := numbered_path basePath k extension.

(** A free [filePath] is returned at the first test. *)
Lemma loop_free (fuel : nat) (filePath : JsString) (counter : N) :
  existsSync filePath = false ->
  loop (S fuel) basePath extension filePath counter = Some filePath.
Proof. intros H. unfold loop. simpl. rewrite H. reflexivity. Qed.

(** An occupied [filePath] sends the loop to the next candidate. *)
Lemma loop_occupied (fuel : nat) (filePath : JsString) (counter : N) :
  existsSync filePath = true ->
  loop (S fuel) basePath extension filePath counter =
  loop fuel basePath extension (candidate counter) (counter + 1)%N.
Proof. intros H. unfold loop. simpl. rewrite H. reflexivity. Qed.

(** The loop walks over [n] occupied candidates and stops at the free
    one that follows them. *)
Lemma loop_skips (n : nat) :
  forall (fuel : nat) (filePath : JsString) (counter : N),
    existsSync filePath = true ->
    (forall j, (counter <= j < counter + N.of_nat n)%N -> existsSync (candidate j) = true) ->
    existsSync (candidate (counter + N.of_nat n)) = false ->
    n + 2 <= fuel ->
    loop fuel basePath extension filePath counter =
    Some (candidate (counter + N.of_nat n)).
Proof.
  induction n as [|n IH]; intros fuel filePath counter Hfile Hocc Hfree Hfuel.
  - destruct fuel as [|[|fuel]]; try lia.
    rewrite loop_occupied by assumption.
    rewrite N.add_0_r in *. apply loop_free; assumption.
  - destruct fuel as [|fuel]; try lia.
    rewrite loop_occupied by assumption.
    replace (counter + N.of_nat (S n))%N with (counter + 1 + N.of_nat n)%N in * by lia.
    apply IH; try assumption; try lia.
    + apply Hocc. lia.
    + intros j Hj. apply Hocc. lia.
Qed.

(** What the loop returns is free, and is [filePath] or a later
    candidate. *)
Lemma loop_returns (fuel : nat) :
  forall (filePath : JsString) (counter : N) (p : JsString),
    loop fuel basePath extension filePath counter = Some p ->
    existsSync p = false /\
    (p = filePath \/
     exists j, (counter <= j < counter + N.of_nat (fuel - 1))%N /\ p = candidate j).
Proof.
  induction fuel as [|fuel IH]; intros filePath counter p; [discriminate|].
  destruct (existsSync filePath) eqn:E.
  - rewrite loop_occupied by assumption. intros H.
    destruct (IH _ _ _ H) as [Hfree [->|[j [Hj ->]]]]; (split; [assumption|right]).
    + destruct fuel as [|fuel]; [discriminate|].
      exists counter. split; [lia | reflexivity].
    + exists j. split; [lia | reflexivity].
  - rewrite loop_free by assumption. intros [= <-]. auto.
Qed.

(** Running out of fuel means that everything tested was occupied. *)
Lemma loop_exhausted (fuel : nat) :
  forall (filePath : JsString) (counter : N),
    loop (S fuel) basePath extension filePath counter = None ->
    existsSync filePath = true /\
    forall j, (counter <= j < counter + N.of_nat fuel)%N -> existsSync (candidate j) = true.
Proof.
  induction fuel as [|fuel IH]; intros filePath counter.
  - destruct (existsSync filePath) eqn:E.
    + intros _. split; [reflexivity | intros j Hj; lia].
    + rewrite loop_free by assumption. discriminate.
  - destruct (existsSync filePath) eqn:E.
    + rewrite loop_occupied by assumption. intros H.
      destruct (IH _ _ H) as [Hc Hrest]. split; [reflexivity|].
      intros j Hj. destruct (N.eq_dec j counter) as [->|Hne]; [exact Hc|].
      apply Hrest. lia.
    + rewrite loop_free by assumption. discriminate.
Qed.

(** More fuel does not change a result. *)
Lemma loop_more_fuel (fuel : nat) :
  forall (extra : nat) (filePath : JsString) (counter : N) (p : JsString),
    loop fuel basePath extension filePath counter = Some p ->
    loop (fuel + extra) basePath extension filePath counter = Some p.
Proof.
  induction fuel as [|fuel IH]; intros extra filePath counter p; [discriminate|].
  change (S fuel + extra) with (S (fuel + extra)).
  destruct (existsSync filePath) eqn:E.
  - rewrite !loop_occupied by assumption. apply IH.
  - rewrite !loop_free by assumption. auto.
Qed.

(** A finite directory cannot hold all of [length occupied + 1]
    numbered candidates. *)
Lemma candidates_not_all_occupied (occupied : list JsString) :
  (forall p, existsSync p = true -> In p occupied) ->
  ~ (forall j, (1 <= j < 1 + N.of_nat (S (List.length occupied)))%N ->
               existsSync (candidate j) = true).
Proof.
  intros Hfin Hall.
  set (ks := map N.of_nat (seq 1 (S (List.length occupied)))).
  assert (Hnodup : NoDup (map candidate ks)).
  { apply Injective_map_NoDup.
    - intros j k. apply numbered_path_inj.
    - apply Injective_map_NoDup; [intros a b; apply Nat2N.inj | apply seq_NoDup]. }
  assert (Hincl : incl (map candidate ks) occupied).
  { intros p Hp. apply in_map_iff in Hp. destruct Hp as [k [<- Hk]].
    apply Hfin, Hall. unfold ks in Hk. apply in_map_iff in Hk.
    destruct Hk as [i [<- Hi]]. apply in_seq in Hi. lia. }
  pose proof (NoDup_incl_length Hnodup Hincl) as Hlen.
  unfold ks in Hlen. rewrite !length_map, length_seq in Hlen. lia.
Qed.

End UniquePathFacts.

(** C7. Unique-path resolution: [getUniqueFilePath] returns
    [<base>.<ext>] when that path is free; otherwise it returns
    [<base>-k.<ext>] for the smallest [k >= 1] whose path is free (every
    smaller numbered path being occupied), as soon as the loop bound
    exceeds [k].  With [screen-Login.png] occupied the result is
    [screen-Login-1.png]; with [screen-Login-1.png] occupied as well it
    is [screen-Login-2.png]. *)
Theorem getUniqueFilePath_smallest_free (existsSync : JsString -> bool)
    (basePath extension : JsString) :
  (existsSync (plain_path basePath extension) = false ->
   forall fuel, 1 <= fuel ->
     getUniqueFilePath existsSync fuel basePath extension =
     Some (plain_path basePath extension)) /\
  (forall k : N,
     (1 <= k)%N ->
     existsSync (plain_path basePath extension) = true ->
     (forall j, (1 <= j < k)%N -> existsSync (numbered_path basePath j extension) = true) ->
     existsSync (numbered_path basePath k extension) = false ->
     forall fuel, N.to_nat k < fuel ->
       getUniqueFilePath existsSync fuel basePath extension =
       Some (numbered_path basePath k extension)) /\
  getUniqueFilePath (occupied_by [lit "screen-Login.png"]) 2
    (lit "screen-Login") (lit "png") = Some (lit "screen-Login-1.png") /\
  getUniqueFilePath (occupied_by [lit "screen-Login.png"; lit "screen-Login-1.png"]) 3
    (lit "screen-Login") (lit "png") = Some (lit "screen-Login-2.png").
Proof.
  split; [|split; [|split; reflexivity]].
  - intros Hfree [|fuel] Hfuel; [lia|].
    apply loop_free; assumption.
  - intros k Hk Hplain Hocc Hfree fuel Hfuel.
    unfold getUniqueFilePath.
    replace k with (1 + N.of_nat (N.to_nat k - 1))%N in Hfree |- * by lia.
    apply loop_skips; try assumption; try lia.
    intros j Hj. apply Hocc. lia.
Qed.

Lemma getUniqueFilePath_smallest_free_witness :
  occupied_by [lit "a.png"; lit "a-1.png"; lit "a-2.png"] (lit "a.png") = true /\
  occupied_by [lit "a.png"; lit "a-1.png"; lit "a-2.png"] (lit "a-3.png") = false /\
  getUniqueFilePath (occupied_by [lit "a.png"; lit "a-1.png"; lit "a-2.png"]) 4
    (lit "a") (lit "png") = Some (lit "a-3.png").
Proof.
  split; [reflexivity|]. split; [reflexivity|].
  apply (proj1 (proj2 (getUniqueFilePath_smallest_free
                         (occupied_by [lit "a.png"; lit "a-1.png"; lit "a-2.png"])
                         (lit "a") (lit "png"))) 3%N).
  - lia.
  - reflexivity.
  - intros j Hj.
    assert (Hcases : j = 1%N \/ j = 2%N) by lia.
    destruct Hcases as [-> | ->]; reflexivity.
  - reflexivity.
  - simpl; lia.
Defined.

(** C10. Termination of the unique-path search: when the occupied paths
    form a finite set, listed by [occupied], the loop of
    [getUniqueFilePath] ends within [length occupied + 2] tests of its
    condition, and the path it returns is not occupied.  The path is
    [<base>.<ext>] or [<base>-k.<ext>] with [k] at most
    [length occupied + 1], so the counter stays that small. *)
Theorem getUniqueFilePath_terminates (existsSync : JsString -> bool)
    (occupied : list JsString) (basePath extension : JsString) :
  (forall p, existsSync p = true <-> In p occupied) ->
  forall fuel, List.length occupied + 2 <= fuel ->
    exists filePath,
      getUniqueFilePath existsSync fuel basePath extension = Some filePath /\
      existsSync filePath = false /\
      ~ In filePath occupied /\
      (filePath = plain_path basePath extension \/
       exists k, (1 <= k <= N.of_nat (List.length occupied) + 1)%N /\
                 filePath = numbered_path basePath k extension).
Proof.
  intros Hfin fuel Hfuel.
  set (bound := S (S (List.length occupied))).
  assert (Hbound : exists filePath,
             getUniqueFilePath existsSync bound basePath extension = Some filePath).
  { destruct (getUniqueFilePath existsSync bound basePath extension) as [p|] eqn:E;
      [exists p; reflexivity|].
    exfalso. apply loop_exhausted in E. destruct E as [_ Hall].
    apply (candidates_not_all_occupied existsSync basePath extension occupied).
    - intros p Hp. apply Hfin, Hp.
    - exact Hall. }
  destruct Hbound as [filePath Hres]. exists filePath.
  pose proof (loop_returns _ _ _ _ _ _ _ Hres) as [Hfree Hshape].
  split.
  - replace fuel with (bound + (fuel - bound)) by (unfold bound; lia).
    apply loop_more_fuel, Hres.
  - split; [exact Hfree|]. split.
    + intros Hin. apply Hfin in Hin. congruence.
    + destruct Hshape as [->|[k [Hk ->]]]; [left; reflexivity|].
      right. exists k. split; [unfold bound in Hk; lia | reflexivity].
Qed.

Lemma getUniqueFilePath_terminates_witness :
  exists filePath,
    getUniqueFilePath (occupied_by [lit "a.png"; lit "a-1.png"]) 4 (lit "a") (lit "png")
      = Some filePath /\
    ~ In filePath [lit "a.png"; lit "a-1.png"].
Proof.
  assert (Hfin : forall p, occupied_by [lit "a.png"; lit "a-1.png"] p = true <->
                           In p [lit "a.png"; lit "a-1.png"]).
  { intros p. unfold occupied_by. rewrite existsb_exists. split.
    - intros [q [Hq Heq]]. apply JsString_eqb_eq in Heq. subst q. exact Hq.
    - intros Hp. exists p. split; [exact Hp | apply JsString_eqb_refl]. }
  destruct (getUniqueFilePath_terminates _ _ (lit "a") (lit "png") Hfin 4 (le_n 4))
    as [filePath [Hres [_ [Hout _]]]].
  exists filePath. split; assumption.
Defined.

(** ** Programs *)

Section ProgramFacts.

Context {RT : Runtime}.

Local Open Scope prog_scope.

Lemma bind_Normal {A B : Type} (m : Prog A) (k : A -> Prog B)
    (w w1 : World) (a : A) (evs : list Event) :
  m w = mkOutcome (Normal a) w1 evs ->
  bind m k w = after evs (k a w1).
Proof. intros H. unfold bind. rewrite H. reflexivity. Qed.

(** ** Fetcher *)

(** The four ways [downloadImage] can go, each with its result, its
    events and its effect on the disk. *)
Lemma downloadImage_cases (url : option JsString) (filePath : JsString) (w : World) :
  (truthy url = false /\
   downloadImage url filePath w =
   mkOutcome (Normal false) w [ConsoleError (SkippingInvalidUrl filePath)])
  \/
  (truthy url = true /\
   exists error n,
     get_arraybuffer (net w) (text url) = (inl error, n) /\
     downloadImage url filePath w =
     mkOutcome (Normal false) (mkWorld n (fs w))
       [RequestArrayBuffer (text url);
        ConsoleError (ErrorDownloading filePath (message error))])
  \/
  (truthy url = true /\
   exists data n error disk,
     get_arraybuffer (net w) (text url) = (inr data, n) /\
     fs_writeFileSync (fs w) filePath data = (Some error, disk) /\
     downloadImage url filePath w =
     mkOutcome (Normal false) (mkWorld n disk)
       [RequestArrayBuffer (text url);
        WriteFileSync filePath data;
        ConsoleError (ErrorDownloading filePath (message error))])
  \/
  (truthy url = true /\
   exists data n disk,
     get_arraybuffer (net w) (text url) = (inr data, n) /\
     fs_writeFileSync (fs w) filePath data = (None, disk) /\
     downloadImage url filePath w =
     mkOutcome (Normal true) (mkWorld n disk)
       [RequestArrayBuffer (text url);
        WriteFileSync filePath data;
        ConsoleLog (Downloaded filePath)]).
Proof.
  unfold downloadImage.
  destruct (truthy url) eqn:Eurl; simpl; [right | left; split; reflexivity].
  unfold try_catch, bind, axios_get_arraybuffer.
  destruct (get_arraybuffer (net w) (text url)) as [[error|data] n] eqn:Eget; simpl.
  - left. split; [reflexivity|]. exists error, n. split; reflexivity.
  - right. unfold writeFileSync; simpl.
    destruct (fs_writeFileSync (fs w) filePath data) as [[error|] disk] eqn:Ewrite; simpl.
    + left. split; [reflexivity|]. exists data, n, error, disk.
      repeat split; solve [reflexivity | assumption].
    + right. split; [reflexivity|]. exists data, n, disk.
      repeat split; solve [reflexivity | assumption].
Qed.

(** Every call of [downloadImage] shows in the events. *)
Lemma downloadImage_leaves_trace (url : option JsString) (filePath : JsString) (w : World) :
  existsb of_downloadImage (events (downloadImage url filePath w)) = true.
Proof.
  destruct (downloadImage_cases url filePath w)
    as [[_ ->]|[[_ [? [? [_ ->]]]]|[[_ [? [? [? [? [_ [_ ->]]]]]]]|[_ [? [? [? [_ [_ ->]]]]]]]]];
    reflexivity.
Qed.

End ProgramFacts.

(** C9. [downloadImage] always completes with a boolean and never with
    an exception in flight.  Without a URL it returns [false] after the
    one console line that names the path, with no request and no write.
    When the request fails, or when the request succeeds and the write
    fails (whatever that write left on the disk), the error is caught,
    one console error line carries the target path and the message, and
    the result is [false]. *)
Theorem downloadImage_returns_boolean {RT : Runtime}
    (url : option JsString) (filePath : JsString) (w : World) :
  exists (success : bool) (w' : World) (evs : list Event),
    downloadImage url filePath w = mkOutcome (Normal success) w' evs /\
    (truthy url = false ->
       success = false /\ w' = w /\
       evs = [ConsoleError (SkippingInvalidUrl filePath)]) /\
    (forall error n,
       truthy url = true ->
       get_arraybuffer (net w) (text url) = (inl error, n) ->
       success = false /\ fs w' = fs w /\
       evs = [RequestArrayBuffer (text url);
              ConsoleError (ErrorDownloading filePath (message error))]) /\
    (forall data n error disk,
       truthy url = true ->
       get_arraybuffer (net w) (text url) = (inr data, n) ->
       fs_writeFileSync (fs w) filePath data = (Some error, disk) ->
       success = false /\
       evs = [RequestArrayBuffer (text url);
              WriteFileSync filePath data;
              ConsoleError (ErrorDownloading filePath (message error))]).
Proof.
  destruct (downloadImage_cases url filePath w)
    as [[Hurl ->]|[[Hurl [e [n [Hget ->]]]]|[[Hurl [d [n [e [dk [Hget [Hwr ->]]]]]]]
        |[Hurl [d [n [dk [Hget [Hwr ->]]]]]]]]];
    do 3 eexists; (split; [reflexivity|]).
  - split; [auto|]. split; intros; congruence.
  - split; [intros; congruence|]. split.
    + intros e' n' _ Hget'. rewrite Hget in Hget'.
      injection Hget' as <- <-. auto.
    + intros d' n' e' dk' _ Hget'. rewrite Hget in Hget'. discriminate.
  - split; [intros; congruence|]. split.
    + intros e' n' _ Hget'. rewrite Hget in Hget'. discriminate.
    + intros d' n' e' dk' _ Hget' Hwr'. rewrite Hget in Hget'.
      injection Hget' as <- <-. rewrite Hwr in Hwr'.
      injection Hwr' as <- <-. auto.
  - split; [intros; congruence|]. split.
    + intros e' n' _ Hget'. rewrite Hget in Hget'. discriminate.
    + intros d' n' e' dk' _ Hget' Hwr'. rewrite Hget in Hget'.
      injection Hget' as <- <-. rewrite Hwr in Hwr'. discriminate.
Qed.

Lemma downloadImage_returns_boolean_witness :
  exists (w' : @World read_only) (evs : list Event),
    @downloadImage read_only (Some (lit "https://cdn/x")) (lit "out/screen-Login.png")
      (@mkWorld read_only tt []) = mkOutcome (Normal false) w' evs /\
    In (ConsoleError (ErrorDownloading (lit "out/screen-Login.png") (lit "EROFS"))) evs.
Proof.
  destruct (@downloadImage_returns_boolean read_only (Some (lit "https://cdn/x"))
              (lit "out/screen-Login.png") (@mkWorld read_only tt []))
    as [success [w' [evs [Hrun [_ [_ Hwrite]]]]]].
  destruct (Hwrite [x00] tt (mkError (lit "EROFS")) [] eq_refl eq_refl eq_refl)
    as [Hfalse Hevs].
  exists w', evs. rewrite Hrun, Hfalse. split; [reflexivity|].
  rewrite Hevs. right; right; left; reflexivity.
Defined.

(** ** Render Resolver and Export Orchestrator *)

Section OrchestratorFacts.

Context {RT : Runtime}.
Variable CONFIG : Config.

Local Open Scope prog_scope.

Lemma quiet_app (e1 e2 : list Event) : quiet (e1 ++ e2) = quiet e1 && quiet e2.
Proof. apply forallb_app. Qed.

(** [getImageUrl] always completes normally, leaves the disk alone and
    causes no event of [downloadImage]. *)
Lemma getImageUrl_outcome (nodeId format : JsString) (w : World) :
  exists url n evs,
    getImageUrl nodeId format w = mkOutcome (Normal url) (mkWorld n (fs w)) evs /\
    quiet evs = true.
Proof.
  unfold getImageUrl, try_catch, axios_get_images.
  destruct (get_images (net w) nodeId format) as [[error|url] n]; simpl.
  - exists None, n. eexists. split; reflexivity.
  - exists url, n. eexists. split; reflexivity.
Qed.

(** When no format resolves, the format loop ends with
    [downloadedSuccessfully] still [false], without any event of
    [downloadImage] and without touching the disk. *)
Lemma tryFormats_unresolved (fuel : nat) (node : Screen.t) (baseFileName : JsString)
    (formats : list JsString) :
  forall w,
    resolves_nothing (Screen.id node) formats w ->
    exists w' evs,
      tryFormats CONFIG fuel node baseFileName formats w =
      mkOutcome (Normal false) w' evs /\
      quiet evs = true /\ fs w' = fs w.
Proof.
  induction formats as [|format formats IH]; intros w Hnone.
  - exists w, []. repeat split; reflexivity.
  - simpl in Hnone. destruct Hnone as [Hurl Hrest].
    destruct (getImageUrl_outcome (Screen.id node) format w)
      as [url [n [evs [Hget Hquiet]]]].
    rewrite Hget in Hurl, Hrest. simpl in Hurl, Hrest.
    destruct (IH _ Hrest) as [w' [evs' [Hloop [Hquiet' Hfs]]]].
    exists w', (evs ++ SetTimeout 100 :: evs').
    split; [|split].
    + cbn [tryFormats]. rewrite (bind_Normal _ _ _ _ _ _ Hget).
      rewrite Hurl. unfold bind at 1. simpl.
      unfold bind at 1. simpl. rewrite Hloop. reflexivity.
    + rewrite quiet_app, Hquiet. simpl. exact Hquiet'.
    + rewrite Hfs. reflexivity.
Qed.

End OrchestratorFacts.

(** C8. When the Render Resolver gives no URL for a record in any
    configured format, the turn of the export loop for that record
    completes normally; none of its events is of [downloadImage] (every
    call of which leaves one, see [downloadImage_leaves_trace]); its
    events include the failure line for the record; the disk is as it
    was; and the run over the record and the records after it is those
    events followed by the run over the records after it, from the
    world the turn leaves, whatever the loop bound.  When the requests
    of the turn left the remote side as it was, that world is the one
    the turn started in: the records after it are processed exactly as
    if the failed record had not been there. *)
Theorem unresolved_record_fails_alone {RT : Runtime} (CONFIG : Config) (fuel : nat)
    (node : Screen.t) (w : World) :
  resolves_nothing (Screen.id node) (imageFormats CONFIG) w ->
  exists (w' : World) (evs : list Event),
    exportScreen CONFIG fuel node w = mkOutcome (Normal tt) w' evs /\
    quiet evs = true /\
    In (ConsoleLog (FailedToDownloadScreen (Screen.name node))) evs /\
    fs w' = fs w /\
    (forall rest,
       exportScreens CONFIG fuel (node :: rest) w =
       after evs (exportScreens CONFIG fuel rest w')) /\
    (net w' = net w ->
     forall rest,
       exportScreens CONFIG fuel (node :: rest) w =
       after evs (exportScreens CONFIG fuel rest w)).
Proof.
  intros Hnone.
  destruct (tryFormats_unresolved CONFIG fuel node
              (sanitizeFileName (Screen.name node)) (imageFormats CONFIG) w Hnone)
    as [w' [evs [Hloop [Hquiet Hfs]]]].
  set (dims := match Screen.absoluteBoundingBox node with
               | Some box => [ConsoleLog (DimensionsOf box)]
               | None => []
               end).
  set (turn := ConsoleLog (ExportingScreen (Screen.name node)) :: dims ++ evs ++
               [ConsoleLog (FailedToDownloadScreen (Screen.name node));
                SetTimeout (apiDelay CONFIG)]).
  assert (Hturn : exportScreen CONFIG fuel node w = mkOutcome (Normal tt) w' turn).
  { unfold exportScreen, turn, dims. unfold bind at 1. simpl.
    destruct (Screen.absoluteBoundingBox node) as [box|];
      unfold bind at 1; simpl; unfold bind at 1; rewrite Hloop; reflexivity. }
  exists w', turn. split; [exact Hturn|]. split; [|split; [|split]].
  - unfold turn. change (?e :: ?l) with ([e] ++ l) at 1.
    rewrite !quiet_app, Hquiet.
    unfold dims. destruct (Screen.absoluteBoundingBox node); reflexivity.
  - unfold turn. right. apply in_or_app; right. apply in_or_app; right.
    left; reflexivity.
  - exact Hfs.
  - assert (Hrest : forall rest,
               exportScreens CONFIG fuel (node :: rest) w =
               after turn (exportScreens CONFIG fuel rest w')).
    { intros rest. cbn [exportScreens].
      exact (bind_Normal (exportScreen CONFIG fuel node)
               (fun _ => exportScreens CONFIG fuel rest) _ _ _ _ Hturn). }
    split; [exact Hrest|].
    intros Hnet rest. rewrite Hrest.
    destruct w as [n disk], w' as [n' disk']. simpl in Hfs, Hnet.
    subst n' disk'. reflexivity.
Qed.

Lemma unresolved_record_fails_alone_witness :
  exists (w' : @World offline) (evs : list Event),
    @exportScreens offline SHIPPED_CONFIG 0 [screenData home; screenData card]
      (@mkWorld offline tt []) =
    after evs (@exportScreens offline SHIPPED_CONFIG 0 [screenData card] w') /\
    quiet evs = true.
Proof.
  assert (Hnone : @resolves_nothing offline (Screen.id (screenData home))
                    (imageFormats SHIPPED_CONFIG) (@mkWorld offline tt [])).
  { simpl. auto. }
  destruct (@unresolved_record_fails_alone offline SHIPPED_CONFIG 0 (screenData home)
              (@mkWorld offline tt []) Hnone)
    as [w' [evs [_ [Hquiet [_ [_ [Hrest _]]]]]]].
  exists w', evs. split; [apply Hrest | exact Hquiet].
Defined.

(** A run against the serving runtime: the two frames named alike are
    written to two different files, the second under the first free
    numbered name, and the run completes. *)
Example main_two_logins :
  let o := @main serving SHIPPED_CONFIG 5 (@mkWorld serving tt []) in
  completion o = Normal tt /\
  @fs serving (world o) =
    [lit "./exported-projects/planteria/screen-Log-in-1.png";
     lit "./exported-projects/planteria/screen-Log-in.png"] /\
  existsb of_downloadImage (events o) = true.
Proof. vm_compute. repeat split; reflexivity. Qed.

(** Offline, the document cannot be fetched and the run ends by
    [process.exit(1)] after the request and one console error. *)
Example main_offline :
  let o := @main offline SHIPPED_CONFIG 5 (@mkWorld offline tt []) in
  completion o = Exit 1 /\ List.length (events o) = 2.
Proof. vm_compute. split; reflexivity. Qed.

(** * Further properties of the code *)

(** ** Tree Filter *)

(** X1. The records of a forest made of two forests are the records of
    the first followed by the records of the second. *)
Theorem extractScreenNodes_app (CONFIG : Config) (nodes1 nodes2 : list Node) :
  extractScreenNodes CONFIG (nodes1 ++ nodes2) =
  extractScreenNodes CONFIG nodes1 ++ extractScreenNodes CONFIG nodes2.
Proof.
  rewrite !extractScreenNodes_kept. unfold document_order.
  rewrite flat_map_app. apply kept_app.
Qed.

(** X2. [traverse] only pushes: whatever [screenNodes] holds when a
    node is visited is still there afterwards, in place, followed by
    what the node alone contributes. *)
Theorem traverse_only_pushes (CONFIG : Config) (node : Node) (screenNodes : list Screen.t) :
  traverse CONFIG node screenNodes = screenNodes ++ extractScreenNodes CONFIG [node].
Proof.
  rewrite traverse_preorder, extractScreenNodes_kept.
  unfold document_order. simpl. rewrite app_nil_r. reflexivity.
Qed.

Lemma filter_map_commute {A B : Type} (p : B -> bool) (f : A -> B) (l : list A) :
  filter p (map f l) = map f (filter (fun a => p (f a)) l).
Proof.
  induction l as [|a l IH]; simpl; [reflexivity|].
  destruct (p (f a)); simpl; rewrite IH; reflexivity.
Qed.

Lemma filter_twice {A : Type} (p q : A -> bool) (l : list A) :
  filter p (filter q l) = filter (fun a => q a && p a) l.
Proof.
  induction l as [|a l IH]; simpl; [reflexivity|].
  destruct (q a); simpl; [destruct (p a)|]; rewrite IH; reflexivity.
Qed.

(** X3. Configuring target dimensions only removes records: the output
    under a filter is the output without filter, restricted to the
    records whose box has the target's width and height. *)
Theorem extractScreenNodes_filter_refines (CONFIG : Config) (target : Dimensions)
    (nodes : list Node) :
  CONFIG.(targetDimensions) = Some target ->
  extractScreenNodes CONFIG nodes =
  filter (fits target) (extractScreenNodes (without_filter CONFIG) nodes).
Proof.
  intros Htarget. rewrite !extractScreenNodes_kept. unfold kept.
  rewrite filter_map_commute, filter_twice. f_equal.
  apply filter_ext. intros n.
  unfold selected, fits, without_filter. simpl. rewrite Htarget.
  destruct (type n === lit "FRAME"); reflexivity.
Qed.

Lemma extractScreenNodes_filter_refines_witness :
  targetDimensions SHIPPED_CONFIG =
    Some {| width := SCREEN_WIDTH; height := SCREEN_HEIGHT |} /\
  extractScreenNodes SHIPPED_CONFIG sample_document =
  filter (fits {| width := SCREEN_WIDTH; height := SCREEN_HEIGHT |})
         (extractScreenNodes (without_filter SHIPPED_CONFIG) sample_document).
Proof.
  split; [reflexivity|].
  apply (extractScreenNodes_filter_refines SHIPPED_CONFIG
           {| width := SCREEN_WIDTH; height := SCREEN_HEIGHT |} sample_document).
  reflexivity.
Defined.

(** ** Sanitizer *)

Lemma clean_app (a b : JsString) : clean a -> clean b -> clean (a ++ b).
Proof.
  intros Ha Hb c Hc. apply in_app_or in Hc. destruct Hc; auto.
Qed.

Lemma clean_sanitizeFileName (name : JsString) : clean (sanitizeFileName name).
Proof.
  rewrite sanitizeFileName_map. intros c Hc.
  apply in_map_iff in Hc. destruct Hc as [c0 [<- _]].
  unfold sanitized_unit.
  destruct (in_class invalid_characters c0) eqn:E;
    [apply hyphen_not_reserved | exact E].
Qed.

(** X4. The result of [sanitizeFileName] holds none of the ten reserved
    characters, whatever the name. *)
Theorem sanitizeFileName_clean (name : JsString) :
  forall c, In c (sanitizeFileName name) -> In c invalid_characters -> False.
Proof.
  intros c Hc Hreserved.
  pose proof (clean_sanitizeFileName name c Hc) as Hclean.
  unfold in_class in Hclean.
  assert (Hex : existsb (N.eqb c) invalid_characters = true).
  { apply existsb_exists. exists c. split; [exact Hreserved | apply N.eqb_refl]. }
  congruence.
Qed.

Lemma sanitizeFileName_clean_witness :
  In 45%N (sanitizeFileName (lit "a/b")) /\ ~ In 45%N invalid_characters.
Proof.
  assert (Hin : In 45%N (sanitizeFileName (lit "a/b"))).
  { right; left; reflexivity. }
  split; [exact Hin|].
  exact (sanitizeFileName_clean (lit "a/b") 45%N Hin).
Defined.

(** X5. The file name [main] builds from a sanitized name holds no
    reserved character, hence no path separator, as long as the numbers
    it may append print without one. *)
Theorem fileNameOf_clean {RT : Runtime} (CONFIG : Config) (node : Screen.t)
    (name : JsString) :
  (CONFIG.(includeDimensions) = true -> forall x, clean (Number_toString x)) ->
  clean (fileNameOf CONFIG node (sanitizeFileName name)).
Proof.
  intros Hnum. unfold fileNameOf.
  assert (Hlit : forall s, forallb (fun c => negb (in_class invalid_characters c)) (lit s) = true ->
                           clean (lit s)).
  { intros s Hs c Hc. rewrite forallb_forall in Hs.
    apply Hs in Hc. destruct (in_class invalid_characters c); [discriminate | reflexivity]. }
  assert (Hbase : clean (lit "screen-" ++ sanitizeFileName name)).
  { apply clean_app; [apply Hlit; reflexivity | apply clean_sanitizeFileName]. }
  destruct (includeDimensions CONFIG) eqn:E; [|exact Hbase].
  destruct (Screen.absoluteBoundingBox node) as [box|]; [|exact Hbase].
  specialize (Hnum eq_refl).
  apply clean_app; [exact Hbase|].
  apply clean_app; [apply Hlit; reflexivity|].
  apply clean_app; [apply Hnum|].
  apply clean_app; [apply Hlit; reflexivity | apply Hnum].
Qed.

(** Decimal digits are not reserved. *)
Lemma clean_decimal (k : N) : clean (decimal k).
Proof.
  unfold decimal. generalize (N.to_uint k). intros d.
  induction d as [|d IH|d IH|d IH|d IH|d IH|d IH|d IH|d IH|d IH|d IH];
    intros c Hc; simpl in Hc; try contradiction;
    (destruct Hc as [<-|Hc]; [reflexivity | apply IH, Hc]).
Qed.

Lemma clean_whole_toString (x : float) : clean (whole_toString x).
Proof.
  assert (Hlit : forall s, forallb (fun c => negb (in_class invalid_characters c)) (lit s) = true ->
                           clean (lit s)).
  { intros s Hs c Hc. rewrite forallb_forall in Hs.
    apply Hs in Hc. destruct (in_class invalid_characters c); [discriminate | reflexivity]. }
  assert (Hnil : clean []) by (intros c []).
  assert (Hsign : forall s : bool, clean (if s then lit "-" else [])).
  { intros [|]; [apply Hlit; reflexivity | exact Hnil]. }
  unfold whole_toString.
  destruct (Prim2SF x) as [s|s| |s m e].
  - apply Hlit; reflexivity.
  - apply clean_app; [apply Hsign | apply Hlit; reflexivity].
  - apply Hlit; reflexivity.
  - cbv zeta.
    destruct (0 <=? e)%Z;
      [|destruct (N.pos m mod 2 ^ Z.to_N (- e) =? 0)%N];
      try (apply clean_app; [apply Hsign | apply clean_decimal]).
    apply Hlit; reflexivity.
Qed.

Lemma fileNameOf_clean_witness :
  includeDimensions WITH_DIMENSIONS = true /\
  (forall x, clean (@Number_toString measuring x)) /\
  @fileNameOf measuring WITH_DIMENSIONS (screenData home) (sanitizeFileName (lit "Log/in"))
    = lit "screen-Log-in-375x812" /\
  clean (@fileNameOf measuring WITH_DIMENSIONS (screenData home)
           (sanitizeFileName (lit "Log/in"))).
Proof.
  split; [reflexivity|].
  split; [exact clean_whole_toString|].
  split; [vm_compute; reflexivity|].
  apply (@fileNameOf_clean measuring WITH_DIMENSIONS (screenData home) (lit "Log/in")).
  intros _. exact clean_whole_toString.
Defined.

(** ** Namer *)

Section UniquePathMore.

Variable existsSync : JsString -> bool.
Variables basePath extension : JsString.

(** What the loop returns is the first free path in the order it tests
    them: [filePath], then the numbered candidates from [counter] on. *)
Lemma loop_first_free (fuel : nat) :
  forall (filePath : JsString) (counter : N) (p : JsString),
    getUniqueFilePath_loop existsSync fuel basePath extension filePath counter = Some p ->
    (p = filePath /\ existsSync filePath = false) \/
    (existsSync filePath = true /\
     exists k, (counter <= k)%N /\
       p = numbered_path basePath k extension /\
       existsSync (numbered_path basePath k extension) = false /\
       forall j, (counter <= j < k)%N ->
                 existsSync (numbered_path basePath j extension) = true).
Proof.
  induction fuel as [|fuel IH]; intros filePath counter p; [discriminate|].
  destruct (existsSync filePath) eqn:E.
  - rewrite loop_occupied by assumption. intros H. right. split; [reflexivity|].
    destruct (IH _ _ _ H) as [[-> Hfree]|[Hocc [k [Hk [-> [Hfree Hbelow]]]]]].
    + exists counter. split; [lia|]. split; [reflexivity|]. split; [exact Hfree|].
      intros j Hj; lia.
    + exists k. split; [lia|]. split; [reflexivity|]. split; [exact Hfree|].
      intros j Hj. destruct (N.eq_dec j counter) as [->|Hne]; [exact Hocc|].
      apply Hbelow. lia.
  - rewrite loop_free by assumption. intros [= <-]. left. auto.
Qed.

End UniquePathMore.

(** X6. Whatever the directory and the loop bound, a path returned by
    [getUniqueFilePath] is free, and it is the first free one:
    [<base>.<ext>], or [<base>-k.<ext>] with [<base>.<ext>] and every
    numbered path below [k] occupied. *)
Theorem getUniqueFilePath_first_free (existsSync : JsString -> bool) (fuel : nat)
    (basePath extension filePath : JsString) :
  getUniqueFilePath existsSync fuel basePath extension = Some filePath ->
  existsSync filePath = false /\
  (filePath = plain_path basePath extension \/
   exists k, (1 <= k)%N /\
     filePath = numbered_path basePath k extension /\
     existsSync (plain_path basePath extension) = true /\
     forall j, (1 <= j < k)%N ->
               existsSync (numbered_path basePath j extension) = true).
Proof.
  intros H. apply loop_first_free in H.
  destruct H as [[-> Hfree]|[Hocc [k [Hk [-> [Hfree Hbelow]]]]]].
  - split; [exact Hfree | left; reflexivity].
  - split; [exact Hfree | right]. exists k. auto.
Qed.

Lemma getUniqueFilePath_first_free_witness :
  getUniqueFilePath (occupied_by [lit "a.png"]) 3 (lit "a") (lit "png") = Some (lit "a-1.png") /\
  occupied_by [lit "a.png"] (lit "a-1.png") = false.
Proof.
  assert (Hrun : getUniqueFilePath (occupied_by [lit "a.png"]) 3 (lit "a") (lit "png")
                 = Some (lit "a-1.png")) by reflexivity.
  split; [exact Hrun|].
  exact (proj1 (getUniqueFilePath_first_free _ _ _ _ _ Hrun)).
Defined.

(** The loop bound does not influence the result: two bounds under
    which [getUniqueFilePath] returns give the same path. *)
Theorem getUniqueFilePath_fuel_irrelevant (existsSync : JsString -> bool)
    (fuel1 fuel2 : nat) (basePath extension p1 p2 : JsString) :
  getUniqueFilePath existsSync fuel1 basePath extension = Some p1 ->
  getUniqueFilePath existsSync fuel2 basePath extension = Some p2 ->
  p1 = p2.
Proof.
  intros H1 H2. unfold getUniqueFilePath in *.
  destruct (Nat.le_ge_cases fuel1 fuel2) as [Hle|Hle].
  - apply (loop_more_fuel _ _ _ _ (fuel2 - fuel1)) in H1.
    replace (fuel1 + (fuel2 - fuel1)) with fuel2 in H1 by lia. congruence.
  - apply (loop_more_fuel _ _ _ _ (fuel1 - fuel2)) in H2.
    replace (fuel2 + (fuel1 - fuel2)) with fuel1 in H2 by lia. congruence.
Qed.

Lemma getUniqueFilePath_fuel_irrelevant_witness :
  getUniqueFilePath (occupied_by [lit "a.png"]) 2 (lit "a") (lit "png") = Some (lit "a-1.png") /\
  getUniqueFilePath (occupied_by [lit "a.png"]) 9 (lit "a") (lit "png") = Some (lit "a-1.png") /\
  lit "a-1.png" = lit "a-1.png".
Proof.
  split; [reflexivity|]. split; [reflexivity|].
  apply (getUniqueFilePath_fuel_irrelevant (occupied_by [lit "a.png"]) 2 9
           (lit "a") (lit "png")); reflexivity.
Defined.

(** X7. When [<base>.<ext>] and every numbered path are occupied the
    loop never leaves: no loop bound gives a result. *)
Theorem getUniqueFilePath_all_occupied (existsSync : JsString -> bool)
    (basePath extension : JsString) :
  existsSync (plain_path basePath extension) = true ->
  (forall k, (1 <= k)%N -> existsSync (numbered_path basePath k extension) = true) ->
  forall fuel, getUniqueFilePath existsSync fuel basePath extension = None.
Proof.
  intros Hplain Hall fuel.
  destruct (getUniqueFilePath existsSync fuel basePath extension) as [p|] eqn:E;
    [exfalso | reflexivity].
  apply loop_first_free in E.
  destruct E as [[-> Hfree]|[_ [k [Hk [_ [Hfree _]]]]]].
  - unfold plain_path in Hplain. congruence.
  - rewrite (Hall k Hk) in Hfree. discriminate.
Qed.

Lemma getUniqueFilePath_all_occupied_witness :
  getUniqueFilePath (fun _ => true) 1000 (lit "a") (lit "png") = None.
Proof.
  apply (getUniqueFilePath_all_occupied (fun _ => true) (lit "a") (lit "png"));
    reflexivity.
Defined.

(** X8. The loop never tests a path twice: numbered paths with different
    counters differ, and no numbered path is [<base>.<ext>]. *)
Theorem candidates_distinct (basePath extension : JsString) :
  (forall j k, numbered_path basePath j extension = numbered_path basePath k extension ->
               j = k) /\
  (forall k, numbered_path basePath k extension <> plain_path basePath extension).
Proof.
  split; [intros j k; apply numbered_path_inj|].
  intros k H. unfold numbered_path, plain_path in H.
  apply app_inv_head in H. discriminate.
Qed.

(** ** Sequencing *)

Section SequencingFacts.

Context {RT : Runtime}.

Lemma bind_OutOfFuel {A B : Type} (m : Prog A) (k : A -> Prog B)
    (w w1 : World) (evs : list Event) :
  m w = mkOutcome OutOfFuel w1 evs ->
  bind m k w = mkOutcome OutOfFuel w1 evs.
Proof. intros H. unfold bind. rewrite H. reflexivity. Qed.

Lemma after_empty {A : Type} (o : Outcome A) : after [] o = o.
Proof. destruct o; reflexivity. Qed.

Lemma after_twice {A : Type} (e1 e2 : list Event) (o : Outcome A) :
  after e1 (after e2 o) = after (e1 ++ e2) o.
Proof. unfold after. simpl. rewrite app_assoc. reflexivity. Qed.

Lemma bind_ret {A B : Type} (a : A) (k : A -> Prog B) (w : World) :
  bind (ret a) k w = k a w.
Proof. unfold bind, ret. simpl. apply after_empty. Qed.

Lemma bind_assoc {A B C : Type} (m : Prog A) (k : A -> Prog B) (h : B -> Prog C)
    (w : World) :
  bind (bind m k) h w = bind m (fun a => bind (k a) h) w.
Proof.
  unfold bind.
  destruct (m w) as [[a|error|code|] w1 e1]; simpl; try reflexivity.
  destruct (k a w1) as [[b|error|code|] w2 e2]; simpl; try reflexivity.
  unfold after. simpl. rewrite app_assoc. reflexivity.
Qed.

Lemma bind_ext {A B : Type} (m : Prog A) (k k' : A -> Prog B) (w : World) :
  (forall a w1, k a w1 = k' a w1) -> bind m k w = bind m k' w.
Proof.
  intros H. unfold bind. destruct (completion (m w)); try reflexivity.
  rewrite H. reflexivity.
Qed.

End SequencingFacts.

(** ** Render Resolver, document fetch and Fetcher *)

Section CallFacts.

Context {RT : Runtime}.

(** The two ways [getImageUrl] can go. *)
Lemma getImageUrl_cases (nodeId format : JsString) (w : World) :
  (exists error n,
     get_images (net w) nodeId format = (inl error, n) /\
     getImageUrl nodeId format w =
     mkOutcome (Normal None) (mkWorld n (fs w))
       [RequestImages nodeId format;
        ConsoleError (ErrorGettingImageUrl (message error))])
  \/
  (exists url n,
     get_images (net w) nodeId format = (inr url, n) /\
     getImageUrl nodeId format w =
     mkOutcome (Normal url) (mkWorld n (fs w)) [RequestImages nodeId format]).
Proof.
  unfold getImageUrl, try_catch, axios_get_images.
  destruct (get_images (net w) nodeId format) as [[error|url] n]; simpl.
  - left. exists error, n. split; reflexivity.
  - right. exists url, n. split; reflexivity.
Qed.

(** What the format loop needs of [getImageUrl]. *)
Lemma getImageUrl_summary (nodeId format : JsString) (w : World) :
  exists url n tail,
    getImageUrl nodeId format w =
    mkOutcome (Normal url) (mkWorld n (fs w)) (RequestImages nodeId format :: tail) /\
    Forall (fun e => is_report e = false /\
                     match e with RequestImages _ _ => False | _ => True end) tail.
Proof.
  destruct (getImageUrl_cases nodeId format w)
    as [[error [n [_ ->]]]|[url [n [_ ->]]]].
  - exists None, n. eexists. split; [reflexivity|].
    constructor; [split; [reflexivity | exact I] | constructor].
  - exists url, n, []. split; [reflexivity | constructor].
Qed.

(** What the format loop needs of [downloadImage]. *)
Lemma downloadImage_summary (url : option JsString) (filePath : JsString) (w : World) :
  exists success w' evs,
    downloadImage url filePath w = mkOutcome (Normal success) w' evs /\
    Forall (fun e => of_downloadImage e = true) evs.
Proof.
  destruct (downloadImage_cases url filePath w)
    as [[_ ->]|[[_ [e [n [_ ->]]]]|[[_ [d [n [e [dk [_ [_ ->]]]]]]]
        |[_ [d [n [dk [_ [_ ->]]]]]]]]];
    do 3 eexists; (split; [reflexivity|]); repeat constructor.
Qed.

(** The writes of [downloadImage] when [filePath] is free: none, or one
    to [filePath]; one that does not throw exactly when the result is
    [true]. *)
Lemma downloadImage_writes (url : option JsString) (filePath : JsString) (w : World) :
  fs_existsSync (fs w) filePath = false ->
  writes_of (fs w) (events (downloadImage url filePath w))
    (fs (world (downloadImage url filePath w)))
    (match completion (downloadImage url filePath w) with
     | Normal true => 1
     | _ => 0
     end).
Proof.
  intros Hfree. unfold writes_of.
  destruct (downloadImage_cases url filePath w)
    as [[_ ->]|[[_ [e [n [_ ->]]]]|[[_ [d [n [e [dk [_ [Hwr ->]]]]]]]
        |[_ [d [n [dk [_ [Hwr ->]]]]]]]]];
    simpl; rewrite ?Hwr; simpl; auto.
Qed.

(** [getImageUrl] writes nothing. *)
Lemma getImageUrl_writes (nodeId format : JsString) (w : World) (disk : FS) :
  writes_of disk (events (getImageUrl nodeId format w)) disk 0.
Proof.
  unfold writes_of.
  destruct (getImageUrl_cases nodeId format w)
    as [[error [n [_ ->]]]|[url [n [_ ->]]]]; simpl; auto.
Qed.

Lemma disk_after_app (disk : FS) (e1 e2 : list Event) :
  disk_after disk (e1 ++ e2) = disk_after (disk_after disk e1) e2.
Proof.
  revert disk. induction e1 as [|e e1 IH]; intros disk; [reflexivity|].
  destruct e; simpl; apply IH.
Qed.

(** The writes of two runs of events, one after the other. *)
Lemma writes_of_app (d d1 d2 : FS) (e1 e2 : list Event) (k1 k2 : nat) :
  writes_of d e1 d1 k1 -> writes_of d1 e2 d2 k2 ->
  writes_of d (e1 ++ e2) d2 (k1 + k2).
Proof.
  unfold writes_of. revert d k1.
  induction e1 as [|e e1 IH]; intros d k1 [Hf1 [Hd1 Hk1]] H2; simpl in *.
  - subst d1 k1. exact H2.
  - destruct e; simpl in *;
      try (apply IH; [repeat split; assumption | exact H2]).
    destruct Hf1 as [Hfree Hf1].
    destruct (IH (snd (fs_writeFileSync d filePath data))
                 (written (snd (fs_writeFileSync d filePath data)) e1)
                 (conj Hf1 (conj Hd1 eq_refl)) H2) as [Hf [Hd Hk]].
    repeat split; try assumption. rewrite Hk. lia.
Qed.

(** Events other than writes leave the disk alone. *)
Lemma writes_of_none (d : FS) (evs : list Event) :
  Forall (fun e => match e with WriteFileSync _ _ => False | _ => True end) evs ->
  writes_of d evs d 0.
Proof.
  unfold writes_of.
  induction 1 as [|e evs He _ IH]; simpl; [auto|].
  destruct e; simpl; try exact IH. contradiction.
Qed.

Lemma of_downloadImage_no_report (e : Event) :
  of_downloadImage e = true ->
  is_report e = false /\ match e with RequestImages _ _ => False | _ => True end.
Proof.
  destruct e as [[]|[]| | | | |]; simpl; intros H; try discriminate; auto.
Qed.

End CallFacts.

(** X9. [getImageUrl] never throws and never touches the disk.  It
    issues exactly one request; when the request fails it prints one
    error line with the message and returns [null], otherwise it
    returns the entry of the response for the node as it is. *)
Theorem getImageUrl_soft_fails {RT : Runtime} (nodeId format : JsString) (w : World) :
  exists url w' tail,
    getImageUrl nodeId format w =
    mkOutcome (Normal url) w' (RequestImages nodeId format :: tail) /\
    fs w' = fs w /\
    (forall error n,
       get_images (net w) nodeId format = (inl error, n) ->
       url = None /\ net w' = n /\
       tail = [ConsoleError (ErrorGettingImageUrl (message error))]) /\
    (forall answer n,
       get_images (net w) nodeId format = (inr answer, n) ->
       url = answer /\ net w' = n /\ tail = []).
Proof.
  destruct (getImageUrl_cases nodeId format w)
    as [[error [n [Hget ->]]]|[url [n [Hget ->]]]];
    do 3 eexists; (split; [reflexivity|]); (split; [reflexivity|]);
    split; intros x n' Hget'; rewrite Hget in Hget'; try discriminate;
    injection Hget' as <- <-; auto.
Qed.

(** X10. [fetchFigmaFile] never throws: it returns the document after
    its one request, or, when the request fails, prints the error and
    ends the process with code 1.  The disk is not touched. *)
Theorem fetchFigmaFile_returns_or_exits {RT : Runtime} (w : World) :
  (forall document n,
     get_file (net w) = (inr document, n) ->
     fetchFigmaFile w = mkOutcome (Normal document) (mkWorld n (fs w)) [RequestFile]) /\
  (forall error n,
     get_file (net w) = (inl error, n) ->
     fetchFigmaFile w =
     mkOutcome (Exit 1) (mkWorld n (fs w))
       [RequestFile; ConsoleError (ErrorFetchingFigmaFile error)]) /\
  (forall error, completion (fetchFigmaFile w) <> Throw error).
Proof.
  unfold fetchFigmaFile, try_catch, axios_get_file.
  destruct (get_file (net w)) as [[error|document] n]; simpl;
    (split; [|split]).
  - intros d n' H; discriminate.
  - intros e n' H. injection H as <- <-. reflexivity.
  - intros e; discriminate.
  - intros d n' H. injection H as <- <-. reflexivity.
  - intros e n' H; discriminate.
  - intros e; discriminate.
Qed.

(** X11. [downloadImage] returns [true] only after a request that
    succeeded and a write of the response data to [filePath] that did
    not throw; the disk is then the one the write left.  When it returns
    [false] the disk is as it was, unless a write was attempted and
    threw: then the disk is what that write left. *)
Theorem downloadImage_true_means_written {RT : Runtime}
    (url : option JsString) (filePath : JsString) (w : World) :
  (completion (downloadImage url filePath w) = Normal true ->
   truthy url = true /\
   exists data n disk,
     get_arraybuffer (net w) (text url) = (inr data, n) /\
     fs_writeFileSync (fs w) filePath data = (None, disk) /\
     world (downloadImage url filePath w) = mkWorld n disk /\
     events (downloadImage url filePath w) =
       [RequestArrayBuffer (text url); WriteFileSync filePath data;
        ConsoleLog (Downloaded filePath)]) /\
  (completion (downloadImage url filePath w) = Normal false ->
   fs (world (downloadImage url filePath w)) = fs w \/
   exists data n error disk,
     get_arraybuffer (net w) (text url) = (inr data, n) /\
     fs_writeFileSync (fs w) filePath data = (Some error, disk) /\
     fs (world (downloadImage url filePath w)) = disk).
Proof.
  destruct (downloadImage_cases url filePath w)
    as [[Hurl ->]|[[Hurl [e [n [Hget ->]]]]|[[Hurl [d [n [e [dk [Hget [Hwr ->]]]]]]]
        |[Hurl [d [n [dk [Hget [Hwr ->]]]]]]]]]; simpl;
    split; intros H; try discriminate; try (left; reflexivity).
  - right. exists d, n, e, dk. auto.
  - split; [exact Hurl|]. exists d, n, dk. auto.
Qed.

(** ** Export Orchestrator *)

Section FormatLoopFacts.

Context {RT : Runtime}.
Variable CONFIG : Config.
Variable fuel : nat.
Variable node : Screen.t.
Variable baseFileName : JsString.

Local Open Scope prog_scope.

(** One turn of the format loop, case by case. *)
Lemma tryFormats_cons (format : JsString) (formats : list JsString) (w : World) :
  exists url n tail,
    getImageUrl (Screen.id node) format w =
    mkOutcome (Normal url) (mkWorld n (fs w))
      (RequestImages (Screen.id node) format :: tail) /\
    Forall (fun e => is_report e = false /\
                     match e with RequestImages _ _ => False | _ => True end) tail /\
    let w1 := mkWorld n (fs w) in
    let evs := RequestImages (Screen.id node) format :: tail in
    if truthy url then
      match getUniqueFilePath (fs_existsSync (fs w)) fuel
              (path_join (outputDir CONFIG) (fileNameOf CONFIG node baseFileName))
              format with
      | None =>
          tryFormats CONFIG fuel node baseFileName (format :: formats) w =
          mkOutcome OutOfFuel w1 evs
      | Some filePath =>
          exists success w2 evs2,
            downloadImage url filePath w1 = mkOutcome (Normal success) w2 evs2 /\
            Forall (fun e => of_downloadImage e = true) evs2 /\
            if success then
              tryFormats CONFIG fuel node baseFileName (format :: formats) w =
              mkOutcome (Normal true) w2
                (evs ++ evs2 ++ [ConsoleLog (DownloadedAs format filePath)])
            else
              tryFormats CONFIG fuel node baseFileName (format :: formats) w =
              after (evs ++ evs2 ++ [SetTimeout 100])
                (tryFormats CONFIG fuel node baseFileName formats w2)
      end
    else
      tryFormats CONFIG fuel node baseFileName (format :: formats) w =
      after (evs ++ [SetTimeout 100])
        (tryFormats CONFIG fuel node baseFileName formats w1).
Proof.
  destruct (getImageUrl_summary (Screen.id node) format w)
    as [url [n [tail [Hget Htail]]]].
  exists url, n, tail. split; [exact Hget|]. split; [exact Htail|].
  cbv zeta. cbn [tryFormats]. rewrite (bind_Normal _ _ _ _ _ _ Hget).
  assert (Hdelay : forall (k : unit -> Prog bool) w0,
             bind (delay 100) k w0 = after [SetTimeout 100] (k tt w0)).
  { intros k w0. apply bind_Normal. reflexivity. }
  destruct (truthy url) eqn:Eurl.
  - destruct (getUniqueFilePath (fs_existsSync (fs w)) fuel
                (path_join (outputDir CONFIG) (fileNameOf CONFIG node baseFileName))
                format) as [filePath|] eqn:Epath.
    + assert (Hpath : uniqueFilePath fuel
                        (path_join (outputDir CONFIG) (fileNameOf CONFIG node baseFileName))
                        format (mkWorld n (fs w)) =
                      mkOutcome (Normal filePath) (mkWorld n (fs w)) []).
      { unfold uniqueFilePath. simpl fs. rewrite Epath. reflexivity. }
      destruct (downloadImage_summary url filePath (mkWorld n (fs w)))
        as [success [w2 [evs2 [Hdl Hevs2]]]].
      exists success, w2, evs2. split; [exact Hdl|]. split; [exact Hevs2|].
      destruct success;
        rewrite bind_assoc, (bind_Normal _ _ _ _ _ _ Hpath), after_empty;
        rewrite bind_assoc, (bind_Normal _ _ _ _ _ _ Hdl), after_twice;
        rewrite bind_assoc.
      * rewrite (bind_Normal (console_log (DownloadedAs format filePath)) _ w2 w2 tt
                   [ConsoleLog (DownloadedAs format filePath)] eq_refl).
        rewrite bind_ret, after_twice. unfold ret, after. simpl.
        rewrite app_nil_r, <- app_assoc. reflexivity.
      * rewrite !bind_ret, Hdelay, after_twice, <- app_assoc. reflexivity.
    + assert (Hpath : uniqueFilePath fuel
                        (path_join (outputDir CONFIG) (fileNameOf CONFIG node baseFileName))
                        format (mkWorld n (fs w)) =
                      mkOutcome OutOfFuel (mkWorld n (fs w)) []).
      { unfold uniqueFilePath. simpl fs. rewrite Epath. reflexivity. }
      rewrite bind_assoc, (bind_OutOfFuel _ _ _ _ _ Hpath).
      unfold after. simpl. rewrite app_nil_r. reflexivity.
  - rewrite bind_ret, Hdelay, after_twice. reflexivity.
Qed.

(** The four cases of a turn of the format loop, as goals: success,
    failed download, loop bound reached, no URL. *)
Ltac format_turn format formats w :=
  let url := fresh "url" in
  let n := fresh "n" in
  let tail := fresh "tail" in
  let Hget := fresh "Hget" in
  let Htail := fresh "Htail" in
  let Hstep := fresh "Hstep" in
  let Eurl := fresh "Eurl" in
  let Epath := fresh "Epath" in
  let filePath := fresh "filePath" in
  let success := fresh "success" in
  let w2 := fresh "w2" in
  let evs2 := fresh "evs2" in
  let Hdl := fresh "Hdl" in
  let Hevs2 := fresh "Hevs2" in
  let Hrun := fresh "Hrun" in
  destruct (tryFormats_cons format formats w)
    as [url [n [tail [Hget [Htail Hstep]]]]];
  cbv zeta in Hstep;
  destruct (truthy url) eqn:Eurl;
  [ destruct (getUniqueFilePath (fs_existsSync (fs w)) fuel
                (path_join (outputDir CONFIG) (fileNameOf CONFIG node baseFileName))
                format) as [filePath|] eqn:Epath;
    [ destruct Hstep as [success [w2 [evs2 [Hdl [Hevs2 Hstep]]]]];
      destruct success; rename Hstep into Hrun
    | rename Hstep into Hrun ]
  | rename Hstep into Hrun ].

(** The format loop ends with a boolean or at the loop bound, never
    with an exception or an exit. *)
Lemma tryFormats_ends (formats : list JsString) :
  forall w,
    (exists success,
       completion (tryFormats CONFIG fuel node baseFileName formats w) = Normal success) \/
    completion (tryFormats CONFIG fuel node baseFileName formats w) = OutOfFuel.
Proof.
  induction formats as [|format formats IH]; intros w.
  - left. exists false. reflexivity.
  - format_turn format formats w; rewrite Hrun; simpl.
    + left. exists true. reflexivity.
    + apply IH.
    + right. reflexivity.
    + apply IH.
Qed.

(** Every write of the format loop, whether it throws or not, is to a
    path that was free on the disk of that moment; the disk the loop
    leaves is the one its writes left; and one write went through when
    the loop ends with [true], none otherwise. *)
Lemma tryFormats_writes (formats : list JsString) :
  forall w,
    let o := tryFormats CONFIG fuel node baseFileName formats w in
    writes_of (fs w) (events o) (fs (world o))
      (match completion o with
       | Normal true => 1
       | _ => 0
       end).
Proof.
  induction formats as [|format formats IH]; intros w; cbv zeta.
  - repeat split.
  - pose proof (getImageUrl_writes (Screen.id node) format w (fs w)) as Hresolve.
    format_turn format formats w; rewrite Hget in Hresolve;
      cbn [events] in Hresolve; rewrite Hrun; cbn [completion world events after].
    + pose proof (downloadImage_writes url filePath (mkWorld n (fs w))
                    (proj1 (loop_returns _ _ _ _ _ _ _ Epath))) as Hdownload.
      rewrite Hdl in Hdownload. cbn [completion world events fs] in Hdownload.
      change 1 with (0 + (1 + 0)).
      apply (writes_of_app _ _ _ _ _ _ _ Hresolve).
      apply (writes_of_app _ _ _ _ _ _ _ Hdownload).
      repeat split.
    + pose proof (downloadImage_writes url filePath (mkWorld n (fs w))
                    (proj1 (loop_returns _ _ _ _ _ _ _ Epath))) as Hdownload.
      rewrite Hdl in Hdownload. cbn [completion world events fs] in Hdownload.
      change (match completion (tryFormats CONFIG fuel node baseFileName formats w2) with
              | Normal true => 1
              | _ => 0
              end)
        with (0 + match completion (tryFormats CONFIG fuel node baseFileName formats w2) with
                  | Normal true => 1
                  | _ => 0
                  end).
      refine (writes_of_app _ (fs w2) _ _ _ _ _ _ (IH w2)).
      change 0 with (0 + (0 + 0)).
      apply (writes_of_app _ _ _ _ _ _ _ Hresolve).
      apply (writes_of_app _ _ _ _ _ _ _ Hdownload).
      repeat split.
    + exact Hresolve.
    + change (match completion (tryFormats CONFIG fuel node baseFileName formats
                                  (mkWorld n (fs w))) with
              | Normal true => 1
              | _ => 0
              end)
        with (0 + match completion (tryFormats CONFIG fuel node baseFileName formats
                                      (mkWorld n (fs w))) with
                  | Normal true => 1
                  | _ => 0
                  end).
      refine (writes_of_app _ (fs w) _ _ _ _ _ _ (IH (mkWorld n (fs w)))).
      change 0 with (0 + 0).
      apply (writes_of_app _ _ _ _ _ _ _ Hresolve).
      repeat split.
Qed.

Lemma no_reports (evs : list Event) :
  Forall (fun e => is_report e = false) evs -> filter is_report evs = [].
Proof.
  induction 1 as [|e evs He _ IH]; simpl; [reflexivity|].
  rewrite He. exact IH.
Qed.

Lemma call_events_no_reports (tail evs2 : list Event) :
  Forall (fun e => is_report e = false /\
                   match e with RequestImages _ _ => False | _ => True end) tail ->
  Forall (fun e => of_downloadImage e = true) evs2 ->
  filter is_report tail = [] /\ filter is_report evs2 = [].
Proof.
  intros Htail Hevs2. split; apply no_reports.
  - eapply Forall_impl; [|exact Htail]. intros e [He _]; exact He.
  - eapply Forall_impl; [|exact Hevs2].
    intros e He. apply of_downloadImage_no_report, He.
Qed.

(** The format loop prints the success line once when it ends with
    [true], and no report line otherwise. *)
Lemma tryFormats_reports (formats : list JsString) :
  forall w,
    let o := tryFormats CONFIG fuel node baseFileName formats w in
    List.length (filter is_report (events o)) =
    match completion o with
    | Normal true => 1
    | _ => 0
    end.
Proof.
  induction formats as [|format formats IH]; intros w; cbv zeta; [reflexivity|].
  format_turn format formats w; rewrite Hrun; simpl.
  - destruct (call_events_no_reports tail evs2 Htail Hevs2) as [Ht He].
    rewrite !filter_app, Ht, He. reflexivity.
  - destruct (call_events_no_reports tail evs2 Htail Hevs2) as [Ht He].
    rewrite !filter_app, Ht, He. simpl. apply IH.
  - destruct (call_events_no_reports tail [] Htail (Forall_nil _)) as [Ht _].
    rewrite Ht. reflexivity.
  - destruct (call_events_no_reports tail [] Htail (Forall_nil _)) as [Ht _].
    rewrite !filter_app, Ht. simpl. apply IH.
Qed.

Lemma requests_within_other (nodes : list Screen.t) (formats : list JsString)
    (evs : list Event) :
  Forall (fun e => match e with RequestImages _ _ => False | _ => True end) evs ->
  Forall (requests_within nodes formats) evs.
Proof.
  apply Forall_impl. intros [| | | i f | | |]; simpl; tauto.
Qed.

Lemma requests_within_more (nodes nodes' : list Screen.t) (formats formats' : list JsString)
    (evs : list Event) :
  incl nodes nodes' -> incl formats formats' ->
  Forall (requests_within nodes formats) evs ->
  Forall (requests_within nodes' formats') evs.
Proof.
  intros Hn Hf. apply Forall_impl.
  intros [| | | i f | | |]; simpl; try tauto.
  intros [[r [Hr Hid]] Hin]. split; [exists r; auto | auto].
Qed.

(** Every render request of the format loop is for the record at hand,
    in one of the formats of the loop. *)
Lemma tryFormats_requests (formats : list JsString) :
  forall w,
    Forall (requests_within [node] formats)
           (events (tryFormats CONFIG fuel node baseFileName formats w)).
Proof.
  induction formats as [|format formats IH]; intros w; [constructor|].
  assert (Hfirst : requests_within [node] (format :: formats)
                     (RequestImages (Screen.id node) format)).
  { simpl. split; [exists node; auto | auto]. }
  assert (Htl : forall tail,
             Forall (fun e => is_report e = false /\
                              match e with RequestImages _ _ => False | _ => True end) tail ->
             Forall (requests_within [node] (format :: formats)) tail).
  { intros tail Htail. apply requests_within_other.
    eapply Forall_impl; [|exact Htail]. intros e [_ He]; exact He. }
  assert (Hdl : forall evs2,
             Forall (fun e => of_downloadImage e = true) evs2 ->
             Forall (requests_within [node] (format :: formats)) evs2).
  { intros evs2 Hevs2. apply requests_within_other.
    eapply Forall_impl; [|exact Hevs2].
    intros e He. apply of_downloadImage_no_report, He. }
  assert (Hrest : forall w0,
             Forall (requests_within [node] (format :: formats))
                    (events (tryFormats CONFIG fuel node baseFileName formats w0))).
  { intros w0. eapply requests_within_more; [| |apply IH].
    - apply incl_refl.
    - apply incl_tl, incl_refl. }
  format_turn format formats w; rewrite Hrun; simpl events.
  - constructor; [exact Hfirst|].
    repeat (apply Forall_app; split); auto; repeat constructor.
  - constructor; [exact Hfirst|].
    repeat (apply Forall_app; split); auto; repeat constructor.
  - constructor; auto.
  - constructor; [exact Hfirst|].
    repeat (apply Forall_app; split); auto; repeat constructor.
Qed.

(** Once a format succeeds the formats after it play no part. *)
Lemma tryFormats_first_success (format : JsString) (formats : list JsString) (w : World) :
  completion (tryFormats CONFIG fuel node baseFileName [format] w) = Normal true ->
  tryFormats CONFIG fuel node baseFileName (format :: formats) w =
  tryFormats CONFIG fuel node baseFileName [format] w.
Proof.
  intros Hone.
  destruct (tryFormats_cons format formats w)
    as [url [n [tail [Hget [_ Hmany]]]]].
  destruct (tryFormats_cons format [] w)
    as [url' [n' [tail' [Hget' [_ Hsingle]]]]].
  rewrite Hget in Hget'. injection Hget' as <- <- <-.
  cbv zeta in Hmany, Hsingle.
  destruct (truthy url).
  - destruct (getUniqueFilePath (fs_existsSync (fs w)) fuel
                (path_join (outputDir CONFIG) (fileNameOf CONFIG node baseFileName))
                format) as [filePath|].
    + destruct Hmany as [s [w2 [evs2 [Hdl [_ Hmany]]]]].
      destruct Hsingle as [s' [w2' [evs2' [Hdl' [_ Hsingle]]]]].
      rewrite Hdl in Hdl'. injection Hdl' as <- <- <-.
      destruct s.
      * rewrite Hmany, Hsingle. reflexivity.
      * rewrite Hsingle in Hone. discriminate.
    + rewrite Hsingle in Hone. discriminate.
  - rewrite Hsingle in Hone. discriminate.
Qed.

End FormatLoopFacts.

Section ExportLoopFacts.

Context {RT : Runtime}.
Variable CONFIG : Config.
Variable fuel : nat.

Local Open Scope prog_scope.

(** A turn of the export loop in terms of its format loop. *)
Lemma exportScreen_unfold (node : Screen.t) (w : World) :
  let o := tryFormats CONFIG fuel node (sanitizeFileName (Screen.name node))
             (imageFormats CONFIG) w in
  exportScreen CONFIG fuel node w =
  match completion o with
  | Normal downloadedSuccessfully =>
      mkOutcome (Normal tt) (world o)
        (preamble node ++ events o ++
         (if downloadedSuccessfully then []
          else [ConsoleLog (FailedToDownloadScreen (Screen.name node))]) ++
         [SetTimeout (apiDelay CONFIG)])
  | Throw error => mkOutcome (Throw error) (world o) (preamble node ++ events o)
  | Exit code => mkOutcome (Exit code) (world o) (preamble node ++ events o)
  | OutOfFuel => mkOutcome OutOfFuel (world o) (preamble node ++ events o)
  end.
Proof.
  cbv zeta.
  unfold exportScreen, preamble, bind, console_log, emit, ret, delay, after.
  simpl.
  destruct (Screen.absoluteBoundingBox node) as [box|]; simpl;
    destruct (tryFormats CONFIG fuel node (sanitizeFileName (Screen.name node))
                (imageFormats CONFIG) w) as [[[|]|error|code|] w' evs];
    simpl; rewrite ?app_nil_r, <- ?app_assoc; reflexivity.
Qed.

Lemma preamble_plain (node : Screen.t) :
  filter is_report (preamble node) = [] /\
  forall nodes formats, Forall (requests_within nodes formats) (preamble node).
Proof.
  unfold preamble. destruct (Screen.absoluteBoundingBox node); split;
    try reflexivity; intros; repeat constructor.
Qed.

(** What a turn of the export loop does, in one statement. *)
Lemma exportScreen_summary (node : Screen.t) (w : World) :
  exists c w' evs,
    exportScreen CONFIG fuel node w = mkOutcome c w' evs /\
    (c = Normal tt \/ c = OutOfFuel) /\
    (c = Normal tt -> List.length (filter is_report evs) = 1) /\
    Forall (requests_within [node] (imageFormats CONFIG)) evs /\
    exists k, k <= 1 /\ writes_of (fs w) evs (fs w') k.
Proof.
  pose proof (exportScreen_unfold node w) as Hrun. cbv zeta in Hrun.
  pose proof (tryFormats_ends CONFIG fuel node (sanitizeFileName (Screen.name node))
                (imageFormats CONFIG) w) as Hends.
  pose proof (tryFormats_writes CONFIG fuel node (sanitizeFileName (Screen.name node))
                (imageFormats CONFIG) w) as Hwrites. cbv zeta in Hwrites.
  pose proof (tryFormats_reports CONFIG fuel node (sanitizeFileName (Screen.name node))
                (imageFormats CONFIG) w) as Hreports. cbv zeta in Hreports.
  pose proof (tryFormats_requests CONFIG fuel node (sanitizeFileName (Screen.name node))
                (imageFormats CONFIG) w) as Hrequests.
  destruct (preamble_plain node) as [Hpre Hprereq].
  assert (Hprewrites : forall d, writes_of d (preamble node) d 0).
  { intros d. apply writes_of_none. unfold preamble.
    destruct (Screen.absoluteBoundingBox node); repeat constructor. }
  destruct (tryFormats CONFIG fuel node (sanitizeFileName (Screen.name node))
              (imageFormats CONFIG) w) as [c w' evs].
  cbn [completion world events] in *. rewrite Hrun.
  destruct Hends as [[[|] ->]| ->]; do 3 eexists; (split; [reflexivity|]).
  - split; [left; reflexivity|]. split; [|split].
    + intros _. rewrite !filter_app, Hpre, !length_app, Hreports. reflexivity.
    + repeat (apply Forall_app; split); auto; repeat constructor.
    + exists (0 + (1 + 0)). split; [lia|].
      apply (writes_of_app _ _ _ _ _ _ _ (Hprewrites (fs w))).
      apply (writes_of_app _ _ _ _ _ _ _ Hwrites).
      apply writes_of_none. repeat constructor.
  - split; [left; reflexivity|]. split; [|split].
    + intros _. rewrite !filter_app, Hpre, (proj1 (List.length_zero_iff_nil _) Hreports).
      reflexivity.
    + repeat (apply Forall_app; split); auto; repeat constructor.
    + exists (0 + (0 + 0)). split; [lia|].
      apply (writes_of_app _ _ _ _ _ _ _ (Hprewrites (fs w))).
      apply (writes_of_app _ _ _ _ _ _ _ Hwrites).
      apply writes_of_none. repeat constructor.
  - split; [right; reflexivity|]. split; [discriminate|]. split.
    + apply Forall_app; split; auto.
    + exists (0 + 0). split; [lia|].
      apply (writes_of_app _ _ _ _ _ _ _ (Hprewrites (fs w))). exact Hwrites.
Qed.

(** The whole loop: it ends normally or at the loop bound; when it ends
    normally it has reported once on every record; and it requests
    renders for its records only. *)
Lemma exportScreens_summary (screenNodes : list Screen.t) :
  forall w,
    exists c w' evs,
      exportScreens CONFIG fuel screenNodes w = mkOutcome c w' evs /\
      (c = Normal tt \/ c = OutOfFuel) /\
      (c = Normal tt -> List.length (filter is_report evs) = List.length screenNodes) /\
      Forall (requests_within screenNodes (imageFormats CONFIG)) evs.
Proof.
  induction screenNodes as [|node rest IH]; intros w.
  - exists (Normal tt), w, []. repeat split; auto.
  - destruct (exportScreen_summary node w)
      as [c [w1 [evs1 [Hturn [Hc [Hrep [Hreq _]]]]]]].
    assert (Hreq1 : Forall (requests_within (node :: rest) (imageFormats CONFIG)) evs1).
    { eapply requests_within_more; [| |exact Hreq].
      - intros r [<-|[]]. left; reflexivity.
      - apply incl_refl. }
    cbn [exportScreens]. destruct Hc as [-> | ->].
    + rewrite (bind_Normal (exportScreen CONFIG fuel node)
                 (fun _ => exportScreens CONFIG fuel rest) _ _ _ _ Hturn).
      destruct (IH w1) as [c2 [w2 [evs2 [Hrest [Hc2 [Hrep2 Hreq2]]]]]].
      rewrite Hrest. exists c2, w2, (evs1 ++ evs2).
      split; [reflexivity|]. split; [exact Hc2|]. split.
      * intros Hn. rewrite filter_app, length_app, (Hrep eq_refl), (Hrep2 Hn).
        reflexivity.
      * apply Forall_app; split; [exact Hreq1|].
        eapply requests_within_more; [| |exact Hreq2].
        -- apply incl_tl, incl_refl.
        -- apply incl_refl.
    + rewrite (bind_OutOfFuel (exportScreen CONFIG fuel node)
                 (fun _ => exportScreens CONFIG fuel rest) _ _ _ Hturn).
      exists OutOfFuel, w1, evs1.
      split; [reflexivity|]. split; [right; reflexivity|].
      split; [discriminate | exact Hreq1].
Qed.

(** The loop over a list in two parts is the loop over the first part,
    then the loop over the second. *)
Lemma exportScreens_app_bind (l1 l2 : list Screen.t) (w : World) :
  exportScreens CONFIG fuel (l1 ++ l2) w =
  bind (exportScreens CONFIG fuel l1) (fun _ => exportScreens CONFIG fuel l2) w.
Proof.
  revert w. induction l1 as [|node l1 IH]; intros w.
  - simpl. rewrite bind_ret. reflexivity.
  - cbn [exportScreens app]. rewrite bind_assoc.
    apply bind_ext. intros _ w1. apply IH.
Qed.

End ExportLoopFacts.

(** X12. A turn of the export loop never ends with an exception or an
    exit.  Every write it attempts, whether the write throws or not, is
    to a path that [fs.existsSync] denies on the disk as it is at that
    moment, so that no existing file is written over; at most one of
    its writes goes through without throwing; and the disk it leaves is
    the one those writes left. *)
Theorem exportScreen_writes_once {RT : Runtime} (CONFIG : Config) (fuel : nat)
    (node : Screen.t) (w : World) :
  let o := exportScreen CONFIG fuel node w in
  (completion o = Normal tt \/ completion o = OutOfFuel) /\
  writes_fresh (fs w) (events o) /\
  written (fs w) (events o) <= 1 /\
  fs (world o) = disk_after (fs w) (events o).
Proof.
  cbv zeta.
  destruct (exportScreen_summary CONFIG fuel node w)
    as [c [w' [evs [-> [Hc [_ [_ [k [Hk [Hfresh [Hdisk Hwritten]]]]]]]]]]].
  simpl. split; [exact Hc|]. split; [exact Hfresh|].
  split; [rewrite Hwritten; exact Hk | symmetry; exact Hdisk].
Qed.

(** On the disk whose first write throws after creating the file, the
    turn for [Home] with the formats png and svg leaves two files: the
    png the failed write left and the svg that went through. *)
Example exportScreen_interrupted_write :
  let o := @exportScreen interrupted PNG_THEN_SVG 3 (screenData home)
             (@mkWorld interrupted tt []) in
  completion o = Normal tt /\
  @fs interrupted (world o) =
    [lit "./exported-projects/planteria/screen-Home.svg";
     lit "./exported-projects/planteria/screen-Home.png"] /\
  @written interrupted [] (events o) = 1.
Proof. vm_compute. repeat split; reflexivity. Qed.

(** X13. The export loop never ends with an exception or an exit,
    whatever the requests and the writes do: it ends normally, or at
    the loop bound of [getUniqueFilePath]. *)
Theorem exportScreens_never_throws {RT : Runtime} (CONFIG : Config) (fuel : nat)
    (screenNodes : list Screen.t) (w : World) :
  completion (exportScreens CONFIG fuel screenNodes w) = Normal tt \/
  completion (exportScreens CONFIG fuel screenNodes w) = OutOfFuel.
Proof.
  destruct (exportScreens_summary CONFIG fuel screenNodes w)
    as [c [w' [evs [-> [Hc _]]]]].
  exact Hc.
Qed.

(** X14. A run of the export loop that ends normally has reported
    exactly once on every record: the success lines and the failure
    lines among its events are as many as the records. *)
Theorem exportScreens_reports_each {RT : Runtime} (CONFIG : Config) (fuel : nat)
    (screenNodes : list Screen.t) (w : World) :
  completion (exportScreens CONFIG fuel screenNodes w) = Normal tt ->
  List.length (filter is_report (events (exportScreens CONFIG fuel screenNodes w))) =
  List.length screenNodes.
Proof.
  destruct (exportScreens_summary CONFIG fuel screenNodes w)
    as [c [w' [evs [-> [_ [Hrep _]]]]]].
  exact Hrep.
Qed.

Lemma exportScreens_reports_each_witness :
  List.length
    (filter is_report
       (events (@exportScreens serving PNG_THEN_SVG 5
                  [screenData home; screenData card; screenData ghost]
                  (@mkWorld serving tt [])))) = 3.
Proof.
  apply (@exportScreens_reports_each serving PNG_THEN_SVG 5
           [screenData home; screenData card; screenData ghost]
           (@mkWorld serving tt [])).
  vm_compute. reflexivity.
Defined.

(** X15. The export loop asks for renders of its own records only, and
    only in configured formats: every render request among its events
    carries the id of a record of the list and a format of
    [CONFIG.imageFormats]. *)
Theorem exportScreens_requests_own {RT : Runtime} (CONFIG : Config) (fuel : nat)
    (screenNodes : list Screen.t) (w : World) (nodeId format : JsString) :
  In (RequestImages nodeId format) (events (exportScreens CONFIG fuel screenNodes w)) ->
  (exists node, In node screenNodes /\ Screen.id node = nodeId) /\
  In format (imageFormats CONFIG).
Proof.
  destruct (exportScreens_summary CONFIG fuel screenNodes w)
    as [c [w' [evs [-> [_ [_ Hreq]]]]]].
  simpl. intros Hin. rewrite Forall_forall in Hreq.
  exact (Hreq _ Hin).
Qed.

Lemma exportScreens_requests_own_witness :
  In (RequestImages (lit "1:2") (lit "png"))
     (events (@exportScreens offline SHIPPED_CONFIG 0 [screenData home; screenData card]
                (@mkWorld offline tt []))) /\
  In (lit "png") (imageFormats SHIPPED_CONFIG).
Proof.
  assert (Hin : In (RequestImages (lit "1:2") (lit "png"))
                   (events (@exportScreens offline SHIPPED_CONFIG 0
                              [screenData home; screenData card]
                              (@mkWorld offline tt [])))).
  { vm_compute. do 8 right. left. reflexivity. }
  split; [exact Hin|].
  exact (proj2 (@exportScreens_requests_own offline SHIPPED_CONFIG 0 _ _ _ _ Hin)).
Defined.

(** X16. The export loop over a list in two parts is the loop over the
    first part followed, when that ends normally, by the loop over the
    second part from the world the first left; when the first part
    stops at the loop bound the second is not started. *)
Theorem exportScreens_app {RT : Runtime} (CONFIG : Config) (fuel : nat)
    (first second : list Screen.t) (w : World) :
  (forall w1 evs1,
     exportScreens CONFIG fuel first w = mkOutcome (Normal tt) w1 evs1 ->
     exportScreens CONFIG fuel (first ++ second) w =
     after evs1 (exportScreens CONFIG fuel second w1)) /\
  (forall w1 evs1,
     exportScreens CONFIG fuel first w = mkOutcome OutOfFuel w1 evs1 ->
     exportScreens CONFIG fuel (first ++ second) w = mkOutcome OutOfFuel w1 evs1).
Proof.
  split; intros w1 evs1 H; rewrite exportScreens_app_bind.
  - exact (bind_Normal _ _ _ _ _ _ H).
  - exact (bind_OutOfFuel _ _ _ _ _ H).
Qed.

(** X17. The format loop stops at the first success: when the loop over
    the first format alone ends with [true], the loop over that format
    followed by any others does exactly the same, so no later format is
    requested. *)
Theorem tryFormats_stops_at_success {RT : Runtime} (CONFIG : Config) (fuel : nat)
    (node : Screen.t) (baseFileName format : JsString) (formats : list JsString)
    (w : World) :
  completion (tryFormats CONFIG fuel node baseFileName [format] w) = Normal true ->
  tryFormats CONFIG fuel node baseFileName (format :: formats) w =
  tryFormats CONFIG fuel node baseFileName [format] w.
Proof. apply tryFormats_first_success. Qed.

Lemma tryFormats_stops_at_success_witness :
  @tryFormats serving PNG_THEN_SVG 3 (screenData home) (lit "Home")
    [lit "png"; lit "svg"] (@mkWorld serving tt []) =
  @tryFormats serving PNG_THEN_SVG 3 (screenData home) (lit "Home")
    [lit "png"] (@mkWorld serving tt []).
Proof.
  apply (@tryFormats_stops_at_success serving PNG_THEN_SVG 3 (screenData home)
           (lit "Home") (lit "png") [lit "svg"] (@mkWorld serving tt [])).
  vm_compute. reflexivity.
Defined.

(** ** Termination of the export loop *)

Section SettlingFacts.

Context {RT : Runtime}.
Hypothesis finite : finite_disks RT.
Variable CONFIG : Config.

Local Open Scope prog_scope.

(** On a finite disk [getUniqueFilePath] returns one and the same path
    under every loop bound from some bound on. *)
Lemma getUniqueFilePath_settles (disk : FS) (basePath extension : JsString) :
  exists bound filePath,
    forall fuel, bound <= fuel ->
      getUniqueFilePath (fs_existsSync disk) fuel basePath extension = Some filePath.
Proof.
  destruct (finite disk) as [occupied Hocc].
  set (bound := S (S (List.length occupied))).
  destruct (getUniqueFilePath (fs_existsSync disk) bound basePath extension)
    as [filePath|] eqn:E.
  - exists bound, filePath. intros fuel Hfuel.
    replace fuel with (bound + (fuel - bound)) by lia.
    apply loop_more_fuel, E.
  - exfalso. apply loop_exhausted in E. destruct E as [_ Hall].
    exact (candidates_not_all_occupied _ basePath extension occupied Hocc Hall).
Qed.

(** The format loop ends with one and the same boolean, world and
    events under every loop bound from some bound on. *)
Lemma tryFormats_settles (node : Screen.t) (baseFileName : JsString)
    (formats : list JsString) :
  forall w,
    exists bound success w' evs,
      forall fuel, bound <= fuel ->
        tryFormats CONFIG fuel node baseFileName formats w =
        mkOutcome (Normal success) w' evs.
Proof.
  induction formats as [|format formats IH]; intros w.
  - exists 0, false, w, []. reflexivity.
  - destruct (getImageUrl_summary (Screen.id node) format w)
      as [url [n [tail [Hget _]]]].
    destruct (truthy url) eqn:Eurl.
    + destruct (getUniqueFilePath_settles (fs w)
                  (path_join (outputDir CONFIG) (fileNameOf CONFIG node baseFileName))
                  format) as [bound1 [filePath Hpath]].
      destruct (downloadImage_summary url filePath (mkWorld n (fs w)))
        as [success [w2 [evs2 [Hdl _]]]].
      destruct success.
      * exists bound1, true, w2. eexists. intros fuel Hfuel.
        destruct (tryFormats_cons CONFIG fuel node baseFileName format formats w)
          as [url' [n' [tail' [Hget' [_ Hstep]]]]].
        rewrite Hget in Hget'. injection Hget' as <- <- <-.
        cbv zeta in Hstep. rewrite Eurl, (Hpath fuel Hfuel) in Hstep.
        destruct Hstep as [s [w2' [evs2' [Hdl' [_ Hstep]]]]].
        rewrite Hdl in Hdl'. injection Hdl' as <- <- <-.
        rewrite Hstep. reflexivity.
      * destruct (IH w2) as [bound2 [success [w' [evs Hrest]]]].
        exists (Nat.max bound1 bound2), success, w'. eexists. intros fuel Hfuel.
        destruct (tryFormats_cons CONFIG fuel node baseFileName format formats w)
          as [url' [n' [tail' [Hget' [_ Hstep]]]]].
        rewrite Hget in Hget'. injection Hget' as <- <- <-.
        cbv zeta in Hstep. rewrite Eurl, (Hpath fuel ltac:(lia)) in Hstep.
        destruct Hstep as [s [w2' [evs2' [Hdl' [_ Hstep]]]]].
        rewrite Hdl in Hdl'. injection Hdl' as <- <- <-.
        rewrite Hstep, (Hrest fuel ltac:(lia)). reflexivity.
    + destruct (IH (mkWorld n (fs w))) as [bound [success [w' [evs Hrest]]]].
      exists bound, success, w'. eexists. intros fuel Hfuel.
      destruct (tryFormats_cons CONFIG fuel node baseFileName format formats w)
        as [url' [n' [tail' [Hget' [_ Hstep]]]]].
      rewrite Hget in Hget'. injection Hget' as <- <- <-.
      cbv zeta in Hstep. rewrite Eurl in Hstep.
      rewrite Hstep, (Hrest fuel Hfuel). reflexivity.
Qed.

Lemma exportScreens_settles (screenNodes : list Screen.t) :
  forall w,
    exists bound w' evs,
      forall fuel, bound <= fuel ->
        exportScreens CONFIG fuel screenNodes w = mkOutcome (Normal tt) w' evs.
Proof.
  induction screenNodes as [|node rest IH]; intros w.
  - exists 0, w, []. reflexivity.
  - destruct (tryFormats_settles node (sanitizeFileName (Screen.name node))
                (imageFormats CONFIG) w) as [bound1 [success [w1 [evs1 Hloop]]]].
    destruct (IH w1) as [bound2 [w2 [evs2 Hrest]]].
    exists (Nat.max bound1 bound2), w2. eexists. intros fuel Hfuel.
    cbn [exportScreens].
    pose proof (exportScreen_unfold CONFIG fuel node w) as Hturn.
    cbv zeta in Hturn. rewrite (Hloop fuel ltac:(lia)) in Hturn.
    cbn [completion world events] in Hturn.
    rewrite (bind_Normal _ (fun _ => exportScreens CONFIG fuel rest) _ _ _ _ Hturn).
    rewrite (Hrest fuel ltac:(lia)). reflexivity.
Qed.

End SettlingFacts.

(** X18. When every state of the disk holds finitely many paths, the
    export loop ends normally for every loop bound from some bound on,
    with the same world and the same events: no record, whatever its
    requests and writes do, keeps the run from reaching its end. *)
Theorem exportScreens_terminates {RT : Runtime} (CONFIG : Config)
    (screenNodes : list Screen.t) (w : World) :
  finite_disks RT ->
  exists bound w' evs,
    forall fuel, bound <= fuel ->
      exportScreens CONFIG fuel screenNodes w = mkOutcome (Normal tt) w' evs.
Proof. intros finite. apply exportScreens_settles, finite. Qed.

Lemma occupied_by_In (paths : list JsString) (p : JsString) :
  occupied_by paths p = true -> In p paths.
Proof.
  unfold occupied_by. rewrite existsb_exists.
  intros [q [Hq Heq]]. apply JsString_eqb_eq in Heq. subst q. exact Hq.
Qed.

Lemma exportScreens_terminates_witness :
  finite_disks serving /\
  exists bound w' evs,
    forall fuel, bound <= fuel ->
      @exportScreens serving SHIPPED_CONFIG fuel [screenData home; screenData card]
        (@mkWorld serving tt []) = mkOutcome (Normal tt) w' evs.
Proof.
  assert (Hfinite : finite_disks serving).
  { intros disk. exists disk. intros p. apply occupied_by_In. }
  split; [exact Hfinite|].
  apply (@exportScreens_terminates serving SHIPPED_CONFIG
           [screenData home; screenData card] (@mkWorld serving tt [])).
  exact Hfinite.
Defined.

(** ** The run as a whole: [main] *)

Section MainFacts.

Context {RT : Runtime}.
Variable CONFIG : Config.
Variable fuel : nat.

Local Open Scope prog_scope.

(** [main] after a document fetch that failed. *)
Lemma main_fetch_failed (w : World) (error : Error) (n : Net) :
  get_file (net w) = (inl error, n) ->
  main CONFIG fuel w =
  mkOutcome (Exit 1) (mkWorld n (fs w))
    [RequestFile; ConsoleError (ErrorFetchingFigmaFile error)].
Proof.
  intros Hget. unfold main, bind, fetchFigmaFile, try_catch, axios_get_file.
  rewrite Hget. reflexivity.
Qed.

(** [main] after a document fetch that succeeded. *)
Lemma main_fetched (w : World) (document : Node) (n : Net) :
  get_file (net w) = (inr document, n) ->
  main CONFIG fuel w =
  after [RequestFile]
    (match children document with
     | None =>
         mkOutcome
           (Throw (mkError (lit "Cannot read properties of undefined (reading 'forEach')")))
           (mkWorld n (fs w)) []
     | Some nodes =>
         let screenNodes := extractScreenNodes CONFIG nodes in
         after [ConsoleLog (FoundScreens (List.length screenNodes) (targetDimensions CONFIG))]
           (match screenNodes with
            | [] =>
                mkOutcome (Normal tt) (mkWorld n (fs w))
                  (ConsoleLog (NoScreensFound (targetDimensions CONFIG)) ::
                   match targetDimensions CONFIG with
                   | Some _ => [ConsoleLog CheckTargetDimensions]
                   | None => []
                   end)
            | _ :: _ =>
                bind (exportScreens CONFIG fuel screenNodes)
                  (fun _ => console_log (ExportCompleted (outputDir CONFIG)))
                  (mkWorld n (fs w))
            end)
     end).
Proof.
  intros Hget.
  assert (Hfetch : fetchFigmaFile w =
                   mkOutcome (Normal document) (mkWorld n (fs w)) [RequestFile]).
  { unfold fetchFigmaFile, try_catch, axios_get_file. rewrite Hget. reflexivity. }
  unfold main. rewrite (bind_Normal _ _ _ _ _ _ Hfetch). f_equal.
  destruct (children document) as [nodes|].
  - rewrite bind_ret. cbv zeta.
    rewrite (bind_Normal (console_log _) _ _ _ tt _ eq_refl). f_equal.
    destruct (extractScreenNodes CONFIG nodes) as [|r l]; [|reflexivity].
    change (List.length (@nil Screen.t) =? 0) with true. cbv iota.
    rewrite (bind_Normal (console_log _) _ _ _ tt _ eq_refl).
    destruct (targetDimensions CONFIG); reflexivity.
  - reflexivity.
Qed.

End MainFacts.

(** X19. A failed document fetch is fatal: [main] prints the error and
    ends the process with code 1, having made no other request and
    touched nothing on the disk. *)
Theorem main_fetch_failure_exits {RT : Runtime} (CONFIG : Config) (fuel : nat)
    (w : World) (error : Error) (n : Net) :
  get_file (net w) = (inl error, n) ->
  main CONFIG fuel w =
  mkOutcome (Exit 1) (mkWorld n (fs w))
    [RequestFile; ConsoleError (ErrorFetchingFigmaFile error)].
Proof. apply main_fetch_failed. Qed.

Lemma main_fetch_failure_exits_witness :
  @main offline SHIPPED_CONFIG 0 (@mkWorld offline tt []) =
  mkOutcome (Exit 1) (@mkWorld offline tt [])
    [RequestFile; ConsoleError (ErrorFetchingFigmaFile (mkError (lit "offline")))].
Proof.
  apply (@main_fetch_failure_exits offline SHIPPED_CONFIG 0 (@mkWorld offline tt [])
           (mkError (lit "offline")) tt).
  reflexivity.
Defined.

(** X20. When no node of the document is selected, [main] ends normally
    after the count line and the diagnostic lines (the hint about
    [targetDimensions] only when a filter is set): it requests no
    render, downloads nothing and leaves the disk as it was. *)
Theorem main_empty_result {RT : Runtime} (CONFIG : Config) (fuel : nat)
    (w : World) (document : Node) (nodes : list Node) (n : Net) :
  get_file (net w) = (inr document, n) ->
  children document = Some nodes ->
  extractScreenNodes CONFIG nodes = [] ->
  main CONFIG fuel w =
  mkOutcome (Normal tt) (mkWorld n (fs w))
    ([RequestFile;
      ConsoleLog (FoundScreens 0 (targetDimensions CONFIG));
      ConsoleLog (NoScreensFound (targetDimensions CONFIG))] ++
     match targetDimensions CONFIG with
     | Some _ => [ConsoleLog CheckTargetDimensions]
     | None => []
     end).
Proof.
  intros Hget Hkids Hnone.
  rewrite (main_fetched CONFIG fuel w document n Hget), Hkids.
  cbv zeta. rewrite Hnone. reflexivity.
Qed.

Lemma main_empty_result_witness :
  extractScreenNodes TINY_TARGET [login "3:1"; login "3:2"] = [] /\
  completion (@main serving TINY_TARGET 0 (@mkWorld serving tt [])) = Normal tt.
Proof.
  split; [reflexivity|].
  rewrite (@main_empty_result serving TINY_TARGET 0 (@mkWorld serving tt [])
             two_logins [login "3:1"; login "3:2"] tt eq_refl eq_refl eq_refl).
  reflexivity.
Defined.

(** X21. A document without [children] is not taken for an empty one:
    [main] ends with an exception in flight right after the fetch,
    before any line is printed, any render requested or any file
    written. *)
Theorem main_missing_children_throws {RT : Runtime} (CONFIG : Config) (fuel : nat)
    (w : World) (document : Node) (n : Net) :
  get_file (net w) = (inr document, n) ->
  children document = None ->
  exists error,
    main CONFIG fuel w = mkOutcome (Throw error) (mkWorld n (fs w)) [RequestFile].
Proof.
  intros Hget Hkids.
  rewrite (main_fetched CONFIG fuel w document n Hget), Hkids.
  eexists. reflexivity.
Qed.

Lemma main_missing_children_throws_witness :
  exists error,
    @main childless SHIPPED_CONFIG 0 (@mkWorld childless tt []) =
    mkOutcome (Throw error) (@mkWorld childless tt []) [RequestFile].
Proof.
  apply (@main_missing_children_throws childless SHIPPED_CONFIG 0
           (@mkWorld childless tt []) ghost tt); reflexivity.
Defined.

(** X22. With finite disks and a document that has [children], [main]
    ends normally for every loop bound from some bound on, whatever the
    render requests, the downloads and the writes do; when some node is
    selected its last event is the completion line. *)
Theorem main_completes {RT : Runtime} (CONFIG : Config) (w : World)
    (document : Node) (nodes : list Node) (n : Net) :
  finite_disks RT ->
  get_file (net w) = (inr document, n) ->
  children document = Some nodes ->
  exists bound,
    forall fuel, bound <= fuel ->
      completion (main CONFIG fuel w) = Normal tt /\
      (extractScreenNodes CONFIG nodes <> [] ->
       exists evs,
         events (main CONFIG fuel w) =
         evs ++ [ConsoleLog (ExportCompleted (outputDir CONFIG))]).
Proof.
  intros finite Hget Hkids.
  destruct (exportScreens_settles finite CONFIG (extractScreenNodes CONFIG nodes)
              (mkWorld n (fs w))) as [bound [w' [evs Hloop]]].
  exists bound. intros fuel Hfuel.
  rewrite (main_fetched CONFIG fuel w document n Hget), Hkids. cbv zeta.
  destruct (extractScreenNodes CONFIG nodes) as [|r l] eqn:E.
  - split; [reflexivity | intros H; contradiction H; reflexivity].
  - rewrite (bind_Normal _ _ _ _ _ _ (Hloop fuel Hfuel)).
    split; [reflexivity|]. intros _.
    exists ([RequestFile;
             ConsoleLog (FoundScreens (List.length (r :: l)) (targetDimensions CONFIG))]
            ++ evs).
    reflexivity.
Qed.

Lemma main_completes_witness :
  finite_disks serving /\
  exists bound,
    forall fuel, bound <= fuel ->
      completion (@main serving SHIPPED_CONFIG fuel (@mkWorld serving tt [])) = Normal tt.
Proof.
  assert (Hfinite : finite_disks serving).
  { intros disk. exists disk. intros p. apply occupied_by_In. }
  split; [exact Hfinite|].
  destruct (@main_completes serving SHIPPED_CONFIG (@mkWorld serving tt [])
              two_logins [login "3:1"; login "3:2"] tt Hfinite eq_refl eq_refl)
    as [bound Hbound].
  exists bound. intros fuel Hfuel. exact (proj1 (Hbound fuel Hfuel)).
Defined.

(** X23. A run of [main] that ends normally has printed exactly one
    report line, of success or of failure, for every selected node of
    the document. *)
Theorem main_reports_each_screen {RT : Runtime} (CONFIG : Config) (fuel : nat)
    (w : World) (document : Node) (nodes : list Node) (n : Net) :
  get_file (net w) = (inr document, n) ->
  children document = Some nodes ->
  completion (main CONFIG fuel w) = Normal tt ->
  List.length (filter is_report (events (main CONFIG fuel w))) =
  List.length (extractScreenNodes CONFIG nodes).
Proof.
  intros Hget Hkids.
  rewrite (main_fetched CONFIG fuel w document n Hget), Hkids. cbv zeta.
  destruct (extractScreenNodes CONFIG nodes) as [|r l] eqn:E.
  - intros _. simpl. destruct (targetDimensions CONFIG); reflexivity.
  - destruct (exportScreens_summary CONFIG fuel (r :: l) (mkWorld n (fs w)))
      as [c [w' [evs [Hloop [Hc [Hrep _]]]]]].
    destruct Hc as [-> | ->].
    + rewrite (bind_Normal _ _ _ _ _ _ Hloop). intros _.
      cbn [events after console_log emit app filter is_report].
      rewrite filter_app, length_app, (Hrep eq_refl). simpl. lia.
    + rewrite (bind_OutOfFuel _ _ _ _ _ Hloop). discriminate.
Qed.

Lemma main_reports_each_screen_witness :
  List.length (filter is_report
                 (events (@main serving SHIPPED_CONFIG 5 (@mkWorld serving tt [])))) = 2.
Proof.
  apply (@main_reports_each_screen serving SHIPPED_CONFIG 5 (@mkWorld serving tt [])
           two_logins [login "3:1"; login "3:2"] tt); vm_compute; reflexivity.
Defined.
